(** * WhatsAppSocketManager: a shallow embedding and its properties

    The development follows [src/modules/whatsapp/WhatsAppSocketManager.ts].
    The manager keeps three pieces of state: the [sockets] map (session name
    to transport handle), the [connectionUpdateSubjects] object (session name
    to rxjs Subject) and, on disk, one folder [tokens/<name>] per session.

    Conventions of the embedding.
    - The class fields are the fields of [State]; methods are functions that
      take the state and return a [Run] (new state, the external calls issued,
      and how the returned Promise settles).
    - The external world is part of [State] as well: the file system below the
      tokens directory ([tokens]), the transport handles that [makeWASocket]
      has produced ([wire]) and those that have reported a close ([ended]),
      and what every observer has been handed by [Subject.next] ([received]).
    - [createSocketWhatsApp] awaits [useMultiFileAuthState], which performs
      file I/O.  The method is therefore split at that suspension point into
      [createSocket_load] and [createSocket_finish]; the event loop of
      [Module Loop] may run other callbacks in between, and the functions
      [createSocketWhatsApp] and [handleConnectionUpdate] are the runs in
      which nothing else is scheduled in between.
    - Session names are taken to be single path segments and the process is
      taken to run from the project root with an existing tokens directory,
      so that [tokens/<name>] (as passed to [useMultiFileAuthState]) and
      [path.resolve(tokensFolder, name)] (as passed to
      [deleteFolderRecursive]) are the same folder, which is then identified
      by [name].  Statements that depend on this identification carry the
      hypothesis [simpleName].  The file system is taken to have the limits
      of Linux ([NAME_MAX], [PATH_MAX]); a load that cannot create its folder
      throws, and since the executor passed to [new Promise] has no
      [reject], the Promise of [createSocketWhatsApp] then never settles.
      The tokens directory is taken to be writable and to hold session
      folders only.  What is stated about a load that succeeds is stated for
      names whose folder is there or that are one path component
      ([loadsSurely]); what is stated about a load that throws, for names
      that no file system accepts ([creatable] is false).
      Logging is not modelled. *)

From Stdlib Require Import ZArith.
From stdpp Require Import base option list gmap strings.

Open Scope string_scope.
Open Scope list_scope.
Open Scope nat_scope.

(** ** The transport library (@whiskeysockets/baileys) *)

Module Baileys.

(** [WAConnectionState = 'open' | 'connecting' | 'close'] *)
Inductive WAConnectionState := ConnOpen | ConnConnecting | ConnClose.

(** The [DisconnectReason] enumeration; the manager reads the first two. *)
Module DisconnectReason.
Definition loggedOut : Z := 401%Z.
Definition restartRequired : Z := 515%Z.
Definition connectionLost : Z := 408%Z.
Definition connectionClosed : Z := 428%Z.
Definition connectionReplaced : Z := 440%Z.
Definition badSession : Z := 500%Z.
End DisconnectReason.

(** A [Boom] error carries [output.statusCode]; any other error object has
    no [output]. *)
Record BoomOutput := { statusCode : Z }.
Record ErrorObject := { output : option BoomOutput }.
Record LastDisconnect := { error : option ErrorObject }.

(** [Partial<ConnectionState>]: every field may be missing. *)
Record ConnectionState := {
  connection : option WAConnectionState;
  lastDisconnect : option LastDisconnect;
  qr : option string
}.

(** The contents of [creds.json]: opaque to the manager. *)
Abbreviation Creds := nat.

(** What [useMultiFileAuthState] hands to [makeWASocket]: the stored
    credentials, or the result of [initAuthCreds()] when the folder has
    none. *)
Inductive AuthState := StoredCreds (c : Creds) | InitAuthCreds.

(** A session folder: the contents of its [creds.json], if the file is
    there. *)
Abbreviation Folder := (option Creds).

(** Limits of the file system: a path component holds at most [NAME_MAX]
    bytes, a path fewer than [PATH_MAX], and neither holds a NUL byte. *)
Definition NAME_MAX : nat := 255.
Definition PATH_MAX : nat := 4096.

(** The path separator "/". *)
Definition slash : Ascii.ascii := Ascii.ascii_of_nat 47.

(** The components of a path, split at "/". *)
Fixpoint components (s : string) : list string :=
  match s with
  | EmptyString => [EmptyString]
  | String c s' =>
      if Ascii.eqb c slash then EmptyString :: components s'
      else match components s' with
           | x :: xs => String c x :: xs
           | [] => [String c EmptyString]
           end
  end.

Fixpoint hasNul (s : string) : bool :=
  match s with
  | EmptyString => false
  | String c s' => Ascii.eqb c Ascii.zero || hasNul s'
  end.

(** Whether [mkdir(`tokens/${name}`, { recursive: true })] can succeed. *)
Definition creatable (name : string) : bool :=
  forallb (λ c, String.length c <=? NAME_MAX) (components name)
  && negb (hasNul name)
  && (String.length (String.append "tokens/" name) <? PATH_MAX).

(** A session name that is one path component and names a child of the
    tokens directory: not empty, not "." or "..", without "/" or NUL, and
    short enough. *)
Definition simpleName (name : string) : bool :=
  match components name with
  | [c] =>
      negb (String.eqb c "") && negb (String.eqb c ".")
      && negb (String.eqb c "..")
      && (String.length c <=? NAME_MAX) && negb (hasNul c)
  | _ => false
  end.

(** [useMultiFileAuthState(folder)]: reads the credentials of the folder;
    when the folder is missing it is created first, and the call throws
    ([None]) when it cannot be created.  The folder [tokens/<name>] is
    identified by [name]; for a name that is not one path component this
    leaves out which other folders the path passes through or creates. *)
Definition useMultiFileAuthState (name : string) (fs : gmap string Folder)
  : option (AuthState * gmap string Folder) :=
  match fs !! name with
  | Some (Some c) => Some (StoredCreds c, fs)
  | Some None => Some (InitAuthCreds, fs)
  | None =>
      if creatable name then Some (InitAuthCreds, <[name := None]> fs)
      else None
  end.

(** [saveCreds()]: writes [creds.json] into the folder; the write fails
    when the folder is gone. *)
Definition saveCreds (name : string) (c : Creds) (fs : gmap string Folder)
  : gmap string Folder :=
  match fs !! name with
  | Some _ => <[name := Some c]> fs
  | None => fs
  end.

End Baileys.

Export Baileys.

#[global] Instance WAConnectionState_eq_dec : EqDecision WAConnectionState.
Proof. solve_decision. Defined.
#[global] Instance AuthState_eq_dec : EqDecision AuthState.
Proof. solve_decision. Defined.

(** ** rxjs Subject *)

Module Rx.

(** Observers are identified by the caller. *)
Abbreviation Observer := nat.

(** A Subject is its list of current observers; the manager never
    completes or errors a Subject. *)
Record Subject := { observers : list Observer }.

(** [new Subject()] *)
Definition newSubject : Subject := {| observers := [] |}.

(** [subject.subscribe(o)] *)
Definition subscribe (o : Observer) (s : Subject) : Subject :=
  {| observers := observers s ++ [o] |}.

(** [subscription.unsubscribe()]: removes one registration of [o]. *)
Fixpoint removeFirst (o : Observer) (l : list Observer) : list Observer :=
  match l with
  | [] => []
  | x :: l' => if decide (x = o) then l' else x :: removeFirst o l'
  end.

Definition unsubscribe (o : Observer) (s : Subject) : Subject :=
  {| observers := removeFirst o (observers s) |}.

Section Delivery.
Context {A : Type}.

(** What observer [o] has been handed so far. *)
Definition inboxOf (inbox : gmap Observer (list A)) (o : Observer) : list A :=
  default [] (inbox !! o).

Definition deliver (v : A) (inbox : gmap Observer (list A)) (o : Observer)
  : gmap Observer (list A) :=
  <[o := inboxOf inbox o ++ [v]]> inbox.

(** [subject.next(v)]: hands [v] to every current observer, in order. *)
Definition next (v : A) (s : Subject) (inbox : gmap Observer (list A))
  : gmap Observer (list A) :=
  foldl (deliver v) inbox (observers s).
End Delivery.

End Rx.

Export Rx.

(** ** A JavaScript object literal used as a dictionary *)

Module JsObject.

(** [connectionUpdateSubjects] starts as [{}], so a property read that
    finds no own property continues on [Object.prototype]. *)
Definition objectPrototypeKeys : list string :=
  [ "constructor"; "__proto__"; "hasOwnProperty"; "isPrototypeOf";
    "propertyIsEnumerable"; "toLocaleString"; "toString"; "valueOf";
    "__defineGetter__"; "__defineSetter__"; "__lookupGetter__";
    "__lookupSetter__" ].

Definition inherited (key : string) : bool :=
  bool_decide (key ∈ objectPrototypeKeys).

Inductive Property (V : Type) :=
| Own (v : V)        (* an own property *)
| Inherited          (* a member of Object.prototype: truthy, not a V *)
| Undefined.
Arguments Own {V} v.
Arguments Inherited {V}.
Arguments Undefined {V}.

(** [obj[key]] *)
Definition get {V} (obj : gmap string V) (key : string) : Property V :=
  match obj !! key with
  | Some v => Own v
  | None => if inherited key then Inherited else Undefined
  end.

End JsObject.

(** ** The manager *)

Module Manager.

(** A transport handle, as returned by [makeWASocket]. *)
Abbreviation Handle := nat.

(** What runs when a pending [createSocketWhatsApp] resolves. *)
Inductive Cont :=
| KCaller                                         (* an outside caller *)
| KHandler (name : string) (update : ConnectionState).
                       (* the rest of handleConnectionUpdate: the emit *)

(** A [createSocketWhatsApp] call suspended at its [await]. *)
Inductive Task :=
| Loading (name : string) (k : Cont)    (* useMultiFileAuthState running *)
| Loaded (name : string) (auth : AuthState) (k : Cont).  (* ready to go on *)

Record State := {
  (* the fields of the class *)
  sockets : gmap string Handle;
  connectionUpdateSubjects : gmap string Subject;
  (* the tokens directory *)
  tokens : gmap string Folder;
  (* the transport: handle [h] is the [h]-th socket made, for the session
     and with the auth state recorded here *)
  wire : list (string * AuthState);
  ended : gset Handle;
  (* the observers *)
  received : gmap Observer (list ConnectionState);
  (* suspended calls *)
  pending : list Task
}.

Definition set_sockets (f : gmap string Handle → gmap string Handle) (st : State) :=
  {| sockets := f (sockets st);
     connectionUpdateSubjects := connectionUpdateSubjects st;
     tokens := tokens st; wire := wire st; ended := ended st;
     received := received st; pending := pending st |}.

Definition set_subjects (f : gmap string Subject → gmap string Subject) (st : State) :=
  {| sockets := sockets st;
     connectionUpdateSubjects := f (connectionUpdateSubjects st);
     tokens := tokens st; wire := wire st; ended := ended st;
     received := received st; pending := pending st |}.

Definition set_tokens (f : gmap string Folder → gmap string Folder) (st : State) :=
  {| sockets := sockets st;
     connectionUpdateSubjects := connectionUpdateSubjects st;
     tokens := f (tokens st); wire := wire st; ended := ended st;
     received := received st; pending := pending st |}.

Definition set_wire (f : list (string * AuthState) → list (string * AuthState)) (st : State) :=
  {| sockets := sockets st;
     connectionUpdateSubjects := connectionUpdateSubjects st;
     tokens := tokens st; wire := f (wire st); ended := ended st;
     received := received st; pending := pending st |}.

Definition set_ended (f : gset Handle → gset Handle) (st : State) :=
  {| sockets := sockets st;
     connectionUpdateSubjects := connectionUpdateSubjects st;
     tokens := tokens st; wire := wire st; ended := f (ended st);
     received := received st; pending := pending st |}.

Definition set_received
    (f : gmap Observer (list ConnectionState) → gmap Observer (list ConnectionState))
    (st : State) :=
  {| sockets := sockets st;
     connectionUpdateSubjects := connectionUpdateSubjects st;
     tokens := tokens st; wire := wire st; ended := ended st;
     received := f (received st); pending := pending st |}.

Definition set_pending (f : list Task → list Task) (st : State) :=
  {| sockets := sockets st;
     connectionUpdateSubjects := connectionUpdateSubjects st;
     tokens := tokens st; wire := wire st; ended := ended st;
     received := received st; pending := f (pending st) |}.

(** [new WhatsAppSocketManager()], started on a tokens directory [fs]. *)
Definition initial (fs : gmap string Folder) : State :=
  {| sockets := ∅; connectionUpdateSubjects := ∅; tokens := fs;
     wire := []; ended := ∅; received := ∅; pending := [] |}.

(** The calls a method makes on its collaborators. *)
Inductive Effect :=
| CallUseMultiFileAuthState (name : string)    (* on tokens/<name> *)
| CallMakeWASocket (name : string) (auth : AuthState)
| CallDeleteFolderRecursive (name : string)    (* on <tokensFolder>/<name> *)
| CallNext (name : string) (update : ConnectionState).

(** How the Promise of an async method settles. *)
Inductive Outcome :=
| Resolved
| RejectedTypeError
| NeverSettles.     (* neither [resolve] nor a rejection is ever reached *)

Record Run := { state : State; effects : list Effect; outcome : Outcome }.

(** *** createSocketWhatsApp *)

(** Up to the [await]: [useMultiFileAuthState(`tokens/${name}`)], which may
    throw ([None]). *)
Definition createSocket_load (name : string) (st : State)
  : option (AuthState * State) :=
  match useMultiFileAuthState name (tokens st) with
  | Some (auth, fs) => Some (auth, set_tokens (λ _, fs) st)
  | None => None
  end.

(** After the [await]: [makeWASocket], the two listeners,
    [this.sockets.set(name, socketWhatsApp)] and [resolve()]. *)
Definition createSocket_finish (name : string) (auth : AuthState) (st : State) : State :=
  let socketWhatsApp : Handle := length (wire st) in
  set_sockets (insert name socketWhatsApp)
    (set_wire (λ w, w ++ [(name, auth)]) st).

(** When the load throws inside the async executor, [resolve()] is never
    reached and there is no [reject]: no socket is made, nothing is
    registered, and the Promise stays pending. *)
Definition createSocketWhatsApp (name : string) (st : State) : Run :=
  match createSocket_load name st with
  | Some (auth, st1) =>
      {| state := createSocket_finish name auth st1;
         effects := [CallUseMultiFileAuthState name; CallMakeWASocket name auth];
         outcome := Resolved |}
  | None =>
      {| state := st;
         effects := [CallUseMultiFileAuthState name];
         outcome := NeverSettles |}
  end.

(** *** handleLoggedOut *)

(** Modelled from the spec: [FileUtils.deleteFolderRecursive]
    (src/services/FileUtils is not among the sources).  The spec's
    CredentialStore has [delete(name)], after which the credential material
    of [name] is absent; the call is not awaited, so it is taken to be
    synchronous. *)
Definition deleteFolderRecursive (name : string) (fs : gmap string Folder)
  : gmap string Folder :=
  delete name fs.

(** For a [simpleName], [path.resolve(this.tokensFolder, name)] is the child
    [name] of the tokens directory; for other names (empty, ".", with "/")
    it is another path, which this key does not describe. *)
Definition handleLoggedOut (name : string) (st : State) : State :=
  set_tokens (deleteFolderRecursive name) st.

(** *** handleConnectionUpdate *)

(** [(lastDisconnect?.error as Boom)?.output?.statusCode] *)
Definition statusCodeOf (update : ConnectionState) : option Z :=
  ld ← lastDisconnect update; e ← error ld; o ← output e; Some (statusCode o).

(** The last statement: emit the update on the Subject of [name], if
    [this.connectionUpdateSubjects[name]] is truthy. *)
Definition emitUpdate (name : string) (update : ConnectionState) (st : State) : Run :=
  match JsObject.get (connectionUpdateSubjects st) name with
  | JsObject.Own subject =>
      {| state := set_received (next update subject) st;
         effects := [CallNext name update];
         outcome := Resolved |}
  | JsObject.Inherited =>
      (* [.next] is not a function on a member of Object.prototype *)
      {| state := st; effects := []; outcome := RejectedTypeError |}
  | JsObject.Undefined =>
      {| state := st; effects := []; outcome := Resolved |}
  end.

(** Where the handler stands when it first yields. *)
Inductive Progress :=
| Finished (r : Run)
| AwaitingCreate (st : State) (name : string) (update : ConnectionState).

(** The handler up to its first [await]. *)
Definition handleConnectionUpdate_start
    (name : string) (update : ConnectionState) (st : State) : Progress :=
  let code := statusCodeOf update in
  if decide (connection update = Some ConnClose) then
    let st1 := set_sockets (delete name) st in
    if decide (code = Some DisconnectReason.loggedOut) then
      let r := emitUpdate name update (handleLoggedOut name st1) in
      Finished {| state := state r;
                  effects := CallDeleteFolderRecursive name :: effects r;
                  outcome := outcome r |}
    else if decide (code = Some DisconnectReason.restartRequired) then
      AwaitingCreate st1 name update
    else
      Finished (emitUpdate name update st1)
  else
    (* 'open' only logs; 'connecting' and a missing field do nothing *)
    Finished (emitUpdate name update st).

(** The handler after its [await]: it goes on to the emit once the awaited
    [createSocketWhatsApp] has resolved, and never if that does not settle. *)
Definition handleConnectionUpdate_resume
    (name : string) (update : ConnectionState) (created : Run) : Run :=
  match outcome created with
  | Resolved =>
      let r := emitUpdate name update (state created) in
      {| state := state r;
         effects := effects created ++ effects r;
         outcome := outcome r |}
  | _ =>
      {| state := state created;
         effects := effects created;
         outcome := NeverSettles |}
  end.

(** The whole handler, when nothing else runs during the [await]. *)
Definition handleConnectionUpdate
    (name : string) (update : ConnectionState) (st : State) : Run :=
  match handleConnectionUpdate_start name update st with
  | Finished r => r
  | AwaitingCreate st1 name' update' =>
      handleConnectionUpdate_resume name' update' (createSocketWhatsApp name' st1)
  end.

(** *** The public queries *)

(** [getConnectionUpdateObservable(name)]: the value returned and the new
    state. *)
Definition getConnectionUpdateObservable (name : string) (st : State)
  : JsObject.Property Subject * State :=
  match JsObject.get (connectionUpdateSubjects st) name with
  | JsObject.Undefined =>
      (JsObject.Own newSubject, set_subjects (insert name newSubject) st)
  | found => (found, st)
  end.

(** [getExistingSessionNames()]: [fs.readdir(this.tokensFolder)], on a tokens
    directory that exists and holds session folders only ([readdir] lists
    every entry, and rejects when the directory is missing). *)
Definition getExistingSessionNames (st : State) : list string :=
  (map_to_list (tokens st)).*1.

(** [getSocketByName(name)] *)
Definition getSocketByName (name : string) (st : State) : option Handle :=
  sockets st !! name.

End Manager.

Export Manager.

(** ** The event loop

    One label is one callback run by the JavaScript event loop: between two
    labels the manager is not running.  A label that is not enabled in a
    state (a task that is not there, a handle that has ended) leaves the
    state as it is. *)

Module Loop.

Inductive Label :=
| CallCreate (name : string)
    (* somebody calls createSocketWhatsApp(name) *)
| IOLoad (i : nat)
    (* the useMultiFileAuthState of pending task [i] completes or throws *)
| Resume (i : nat)
    (* pending task [i] goes on after its await, up to the end of the
       awaiting handler if there is one *)
| Emit (h : Handle) (update : ConnectionState)
    (* handle [h] fires 'connection.update' *)
| CredsUpdate (h : Handle) (c : Creds)
    (* handle [h] fires 'creds.update' *)
| Subscribe (name : string) (o : Observer)
    (* getConnectionUpdateObservable(name).subscribe(o) *)
| Unsubscribe (name : string) (o : Observer).
    (* the subscription of [o] on the Subject of [name] is cancelled *)

(** The session a handle was made for: the [name] captured by its
    listeners. *)
Definition sessionOf (st : State) (h : Handle) : option string :=
  fst <$> wire st !! h.

(** A handle is live from [makeWASocket] until it reports a close. *)
Definition live (st : State) (h : Handle) : Prop :=
  is_Some (wire st !! h) ∧ h ∉ ended st.

Definition liveFor (st : State) (name : string) (h : Handle) : Prop :=
  sessionOf st h = Some name ∧ h ∉ ended st.

Definition markEnded (h : Handle) (update : ConnectionState) (st : State) : State :=
  if decide (connection update = Some ConnClose)
  then set_ended (λ e, {[h]} ∪ e) st
  else st.

Definition step (l : Label) (st : State) : State :=
  match l with
  | CallCreate name =>
      set_pending (λ p, p ++ [Loading name KCaller]) st
  | IOLoad i =>
      match pending st !! i with
      | Some (Loading name k) =>
          match createSocket_load name st with
          | Some (auth, st1) =>
              set_pending (λ p, <[i := Loaded name auth k]> p) st1
          | None =>
              (* the load threw: the call never goes on *)
              set_pending (delete i) st
          end
      | _ => st
      end
  | Resume i =>
      match pending st !! i with
      | Some (Loaded name auth k) =>
          let st1 := createSocket_finish name auth (set_pending (delete i) st) in
          match k with
          | KCaller => st1
          | KHandler name' update => state (emitUpdate name' update st1)
          end
      | _ => st
      end
  | Emit h update =>
      match sessionOf st h with
      | Some name =>
          if decide (h ∈ ended st) then st
          else
            match handleConnectionUpdate_start name update (markEnded h update st) with
            | Finished r => state r
            | AwaitingCreate st1 name' update' =>
                set_pending (λ p, p ++ [Loading name' (KHandler name' update')]) st1
            end
      | None => st
      end
  | CredsUpdate h c =>
      match sessionOf st h with
      | Some name =>
          if decide (h ∈ ended st) then st
          else set_tokens (saveCreds name c) st
      | None => st
      end
  | Subscribe name o =>
      match getConnectionUpdateObservable name st with
      | (JsObject.Own subject, st1) =>
          set_subjects (insert name (subscribe o subject)) st1
      | (_, st1) => st1      (* no [.subscribe] on what was returned *)
      end
  | Unsubscribe name o =>
      set_subjects (alter (unsubscribe o) name) st
  end.

(** A schedule, run from left to right. *)
Definition run (tr : list Label) (st : State) : State :=
  foldl (λ s l, step l s) st tr.

Definition reachable (st : State) : Prop :=
  ∃ fs tr, st = run tr (initial fs).

End Loop.

Export Loop.

(** ** Notions used by the statements *)

(** The credential material of a session: the contents of
    [tokens/<name>/creds.json]. *)
Definition credentialMaterial (st : State) (name : string) : option Creds :=
  mjoin (tokens st !! name).

(** The [makeWASocket] calls among the calls of a run. *)
Definition opensIssued (effs : list Effect) : list (string * AuthState) :=
  omap (λ e, match e with
             | CallMakeWASocket name auth => Some (name, auth)
             | _ => None
             end) effs.

(** The load of the auth state of [name] succeeds whatever lies outside the
    tokens directory: the folder is there, or the name is one path
    component. *)
Definition loadsSurely (name : string) (st : State) : Prop :=
  is_Some (tokens st !! name) ∨ simpleName name = true.

(** The load of the auth state of [name] does not throw. *)
Definition loads (name : string) (st : State) : Prop :=
  is_Some (useMultiFileAuthState name (tokens st)).

(** The handler never gets past its [await]: the update is a close with
    [restartRequired] and the load of the auth state throws. *)
Definition awaitsForever (name : string) (update : ConnectionState) (st : State)
  : bool :=
  bool_decide (connection update = Some ConnClose
               ∧ statusCodeOf update = Some DisconnectReason.restartRequired
               ∧ useMultiFileAuthState name (tokens st) = None).

(** The auth state that the folder of [name] holds. *)
Definition storedAuth (st : State) (name : string) : AuthState :=
  match credentialMaterial st name with
  | Some c => StoredCreds c
  | None => InitAuthCreds
  end.

(** Whether observer [o] is registered on some Subject. *)
Definition subscribedSomewhere (st : State) (o : Observer) : Prop :=
  ∃ name subject,
    connectionUpdateSubjects st !! name = Some subject ∧ o ∈ observers subject.

(** How many times [o] is registered in a list of observers. *)
Definition occurrences (o : Observer) (l : list Observer) : nat :=
  length (filter (λ x, x = o) l).

(** The observers currently registered for [name]. *)
Definition observersOf (st : State) (name : string) : list Observer :=
  match connectionUpdateSubjects st !! name with
  | Some subject => observers subject
  | None => []
  end.

(** The manager as seen without the transport: which names are registered,
    the Subjects, the tokens directory, what observers have received and what
    is suspended; not which handles exist, which have ended or which handle a
    name is bound to. *)
Record SessionView := {
  registered : gset string;
  subjects : gmap string Subject;
  stored : gmap string Folder;
  inboxes : gmap Observer (list ConnectionState);
  suspended : list Task
}.

Definition sessionView (st : State) : SessionView :=
  {| registered := dom (sockets st);
     subjects := connectionUpdateSubjects st;
     stored := tokens st;
     inboxes := received st;
     suspended := pending st |}.

(** Labels that register [o]. *)
Definition subscribes (o : Observer) (l : Label) : Prop :=
  match l with
  | Subscribe _ o' => o' = o
  | _ => False
  end.

(** ** The claims of the specification that the code does not meet, as
    predicates *)


(** "at most one live transport handle per session name, in every reachable
    state" *)
Definition atMostOneLiveHandle : Prop :=
  ∀ st, reachable st →
    ∀ name h1 h2, liveFor st name h1 → liveFor st name h2 → h1 = h2.


(** "the publish point is created on the first published event if there is
    none yet" *)
Definition publishPointCreatedOnEvent : Prop :=
  ∀ st name update,
    is_Some (connectionUpdateSubjects
               (state (handleConnectionUpdate name update st)) !! name).

(** "the names listed are those of the tokens directory together with those
    of the registry, in every reachable state" *)
Definition listsStoreAndRegistry : Prop :=
  ∀ st, reachable st →
    list_to_set (getExistingSessionNames st)
      =@{gset string} dom (tokens st) ∪ dom (sockets st).

(** What a callback of the event loop publishes, and for which name. *)
Definition publishedBy (l : Label) (st : State) : option (string * ConnectionState) :=
  match l with
  | Emit h update =>
      match sessionOf st h with
      | Some name =>
          if decide (h ∈ ended st) then None
          else
            match handleConnectionUpdate_start name update (markEnded h update st) with
            | Finished _ => Some (name, update)
            | AwaitingCreate _ _ _ => None
            end
      | None => None
      end
  | Resume i =>
      match pending st !! i with
      | Some (Loaded _ _ (KHandler name update)) => Some (name, update)
      | _ => None
      end
  | _ => None
  end.

(** What observer [o] is handed by one callback, and by a schedule. *)
Definition deliveredTo (o : Observer) (l : Label) (st : State) : list ConnectionState :=
  match publishedBy l st with
  | Some (name, update) => replicate (occurrences o (observersOf st name)) update
  | None => []
  end.

Fixpoint deliveries (o : Observer) (tr : list Label) (st : State) : list ConnectionState :=
  match tr with
  | [] => []
  | l :: tr' => deliveredTo o l st ++ deliveries o tr' (step l st)
  end.

(** What holds of the registry and the transport in every reachable state:
    a registered handle was made for the name it is registered under and has
    not ended, and only handles that were made have ended. *)
Definition registryInvariant (st : State) : Prop :=
  (∀ name h, sockets st !! name = Some h → liveFor st name h)
  ∧ (∀ h, h ∈ ended st → h < length (wire st)).


(** Sample updates. *)
Definition closedWith (code : Z) : ConnectionState :=
  {| connection := Some ConnClose;
     lastDisconnect :=
       Some {| error := Some {| output := Some {| statusCode := code |} |} |};
     qr := None |}.

Definition pairingCode (artifact : string) : ConnectionState :=
  {| connection := None; lastDisconnect := None; qr := Some artifact |}.

Definition opened : ConnectionState :=
  {| connection := Some ConnOpen; lastDisconnect := None; qr := None |}.

(** The session a suspended call is for. *)
Definition taskName (t : Task) : string :=
  match t with
  | Loading name _ => name
  | Loaded name _ _ => name
  end.

(** What holds of a name for which createSocketWhatsApp has not been called:
    it is not registered, no handle was made for it and no call for it is
    suspended. *)
Definition untouched (name : string) (st : State) : Prop :=
  sockets st !! name = None
  ∧ (∀ h, sessionOf st h ≠ Some name)
  ∧ (∀ t, t ∈ pending st → taskName t ≠ name).

(** ** JavaScript values, as far as the controller tests them *)

Module Js.

Inductive Value :=
| VUndefined
| VNull
| VBool (b : bool)
| VNumber (z : Z)
| VString (s : string)
| VObject.          (* any object or array *)

(** [!!v] *)
Definition truthy (v : Value) : bool :=
  match v with
  | VUndefined | VNull => false
  | VBool b => b
  | VNumber z => negb (z =? 0)%Z
  | VString s => negb (String.eqb s "")
  | VObject => true
  end.

End Js.

(** ** The controller (src/app/controllers/WhatsAppController.ts)

    [WhatsappService] is not among the sources; the controller only awaits
    its two methods, so the service is given by how each call settles. *)

Module Controller.

Inductive Awaited (A : Type) :=
| Fulfilled (a : A)
| Thrown.
Arguments Fulfilled {A} a.
Arguments Thrown {A}.

(** The part of the [initInstance] response that [create] reads:
    [response.data.qrcode.url]. *)
Record Qrcode := { url : option string }.
Record InitData := { qrcode : option Qrcode }.
Record InitResponse := { data : option InitData }.

Record WhatsappService := {
  getSessionByKey : Js.Value → Awaited Js.Value;
  initInstance : Js.Value → Awaited InitResponse
}.

Inductive ServiceCall :=
| GetSessionByKey (key : Js.Value)
| InitInstance (key : Js.Value).

(** What is passed to [res.json]. *)
Inductive Json :=
| JsonError (message : string)       (* { error: message } *)
| JsonQrcode (qr : option string)    (* { qrcode } *)
| JsonSession (session : Js.Value).

Record Response := { status : nat; json : Json }.

(** What a handler did: the service calls it made, and the response it sent,
    if it sent one. *)
Record Handled := { calls : list ServiceCall; sent : option Response }.

(** [req.body], which is [undefined] when no body parser has run. *)
Record Body := { key : Js.Value }.
Record CreateRequest := { body : option Body }.

(** [req.params] *)
Record ShowRequest := { paramKey : option string }.

Definition startFailed : Response :=
  {| status := 500; json := JsonError "Erro ao iniciar instância" |}.

(** [create(req, res)] *)
Definition create (service : WhatsappService) (req : CreateRequest) : Handled :=
  match body req with
  | None =>
      (* reading [.key] of undefined throws before the [try] *)
      {| calls := []; sent := None |}
  | Some b =>
      if negb (Js.truthy (key b)) then
        {| calls := [];
           sent := Some {| status := 500;
                           json := JsonError "Chave key obrigatória" |} |}
      else
        match getSessionByKey service (key b) with
        | Thrown =>
            {| calls := [GetSessionByKey (key b)]; sent := Some startFailed |}
        | Fulfilled session =>
            if Js.truthy session then
              {| calls := [GetSessionByKey (key b)];
                 sent := Some {| status := 400;
                                 json := JsonError "Usuário já iniciou uma sessão" |} |}
            else
              {| calls := [GetSessionByKey (key b); InitInstance (key b)];
                 sent :=
                   Some
                     match initInstance service (key b) with
                     | Thrown => startFailed
                     | Fulfilled response =>
                         match d ← data response; qrcode d with
                         | Some q => {| status := 200; json := JsonQrcode (url q) |}
                         | None => startFailed     (* TypeError, caught *)
                         end
                     end |}
        end
  end.

(** [show(req, res)] *)
Definition show (service : WhatsappService) (req : ShowRequest) : Handled :=
  match paramKey req with
  | Some k =>
      if negb (Js.truthy (Js.VString k)) then
        {| calls := [];
           sent := Some {| status := 500;
                           json := JsonError "Instance key não especificado na requisição" |} |}
      else
        {| calls := [GetSessionByKey (Js.VString k)];
           sent :=
             Some
               match getSessionByKey service (Js.VString k) with
               | Fulfilled session => {| status := 200; json := JsonSession session |}
               | Thrown => {| status := 500; json := JsonError "Falha ao obter sessão" |}
               end |}
  | None =>
      {| calls := [];
         sent := Some {| status := 500;
                         json := JsonError "Instance key não especificado na requisição" |} |}
  end.

End Controller.

(** ** The route table (the router module of the repository)

    The layers are those of the source, in its order.  How Express matches a
    path pattern against a request, and whether a middleware calls [next()],
    are parameters of the dispatch; a route handler ends the dispatch. *)

Module Routes.

Inductive Method := GET | POST | DELETE | PUT | PATCH.

Inductive Handler :=
| SessionController_create
| TenantController_index
| TenantController_create
| TenantController_show
| TenantController_delete
| WhatsAppController_create
| WhatsAppController_show.

Inductive Middleware := authenticateTenant | tenantStatusCheck.

#[global] Instance Method_eq_dec : EqDecision Method.
Proof. solve_decision. Defined.
#[global] Instance Handler_eq_dec : EqDecision Handler.
Proof. solve_decision. Defined.
#[global] Instance Middleware_eq_dec : EqDecision Middleware.
Proof. solve_decision. Defined.

Inductive Layer :=
| Use (m : Middleware)                              (* routes.use(m) *)
| Route (method : Method) (pattern : string) (h : Handler).

Definition routes : list Layer :=
  [ Route POST "/session" SessionController_create;
    Use authenticateTenant;
    Route GET "/tenants" TenantController_index;
    Route POST "/tenants" TenantController_create;
    Route GET "/tenants/:id" TenantController_show;
    Route DELETE "/tenants/:id" TenantController_delete;
    Use tenantStatusCheck;
    Route POST "/whatsapp/sessions" WhatsAppController_create;
    Route GET "/whatsapp/sessions/:key" WhatsAppController_show ].

Record Request := { method : Method; path : string }.

Inductive Dispatched :=
| Served (h : Handler)          (* a route handler ran *)
| Stopped (m : Middleware)      (* a middleware did not call next() *)
| Unmatched.                    (* the router was left without a match *)

Section Dispatch.
Variable pathMatches : string → string → bool.   (* pattern, request path *)
Variable passes : Middleware → Request → bool.

(** The layers are tried in order; the result comes with the middlewares
    that ran. *)
Fixpoint dispatch (layers : list Layer) (req : Request)
  : list Middleware * Dispatched :=
  match layers with
  | [] => ([], Unmatched)
  | Use m :: rest =>
      if passes m req then
        let '(ran, d) := dispatch rest req in (m :: ran, d)
      else ([m], Stopped m)
  | Route meth pattern h :: rest =>
      if decide (meth = method req) then
        if pathMatches pattern (path req) then ([], Served h)
        else dispatch rest req
      else dispatch rest req
  end.
End Dispatch.

(** A matcher for examples: the request path is the pattern itself. *)
Definition literally (pattern request : string) : bool :=
  String.eqb pattern request.

End Routes.

(** * Properties *)

(** ** Delivery by a Subject *)

Section DeliveryFacts.
Context {A : Type}.
Implicit Types (inbox : gmap Observer (list A)) (o x : Observer) (v : A).

Lemma inboxOf_deliver v inbox x o :
  inboxOf (deliver v inbox x) o
  = inboxOf inbox o ++ (if decide (x = o) then [v] else []).
Proof.
  unfold deliver, inboxOf at 1. case_decide as Hx.
  - subst x. by rewrite lookup_insert_eq.
  - rewrite lookup_insert_ne by done. by rewrite app_nil_r.
Qed.

Lemma inboxOf_next v (s : Subject) inbox o :
  inboxOf (next v s inbox) o
  = inboxOf inbox o ++ replicate (occurrences o (observers s)) v.
Proof.
  unfold next, occurrences. generalize (observers s) as l; intros l.
  revert inbox. induction l as [|x l IH]; intros inbox; simpl.
  - by rewrite app_nil_r.
  - rewrite IH, inboxOf_deliver, filter_cons. case_decide; simpl.
    + by rewrite <- app_assoc.
    + by rewrite app_nil_r.
Qed.
End DeliveryFacts.

Lemma occurrences_not_elem (o : Observer) (l : list Observer) :
  o ∉ l → occurrences o l = 0.
Proof.
  unfold occurrences. induction l as [|x l IH]; intros Hin; [done|].
  rewrite filter_cons. case_decide as Hx.
  - subst x. exfalso. apply Hin. by left.
  - apply IH. intros ?. apply Hin. by right.
Qed.

Lemma elem_of_removeFirst (o x : Observer) (l : list Observer) :
  x ∈ removeFirst o l → x ∈ l.
Proof.
  induction l as [|y l IH]; simpl; [done|].
  case_decide.
  - intros ?. by right.
  - intros [->|?]%elem_of_cons; [by left|]. right. by apply IH.
Qed.

(** ** The last statement of the handler *)

Section EmitUpdate.
Variables (name : string) (update : ConnectionState) (st : State).

Lemma emitUpdate_frame :
  let st' := state (emitUpdate name update st) in
  sockets st' = sockets st
  ∧ connectionUpdateSubjects st' = connectionUpdateSubjects st
  ∧ tokens st' = tokens st
  ∧ wire st' = wire st
  ∧ ended st' = ended st
  ∧ pending st' = pending st.
Proof.
  unfold emitUpdate. by destruct (JsObject.get _ _).
Qed.

Lemma emitUpdate_received o :
  inboxOf (received (state (emitUpdate name update st))) o
  = inboxOf (received st) o
    ++ replicate (occurrences o (observersOf st name)) update.
Proof.
  unfold emitUpdate, observersOf, JsObject.get.
  destruct (connectionUpdateSubjects st !! name) as [s|]; simpl.
  - apply inboxOf_next.
  - destruct (JsObject.inherited name); simpl; by rewrite app_nil_r.
Qed.

Lemma emitUpdate_effects :
  opensIssued (effects (emitUpdate name update st)) = []
  ∧ ∀ m, CallDeleteFolderRecursive m ∉ effects (emitUpdate name update st).
Proof.
  unfold emitUpdate. destruct (JsObject.get _ _); simpl; split; try done;
    intros m Hm; repeat (apply elem_of_cons in Hm as [Hm|Hm]; [done|]);
    by apply elem_of_nil in Hm.
Qed.
End EmitUpdate.

(** ** Loading the auth state *)

Lemma useMultiFileAuthState_spec
    (name : string) (fs fs' : gmap string Folder) (auth : AuthState) :
  useMultiFileAuthState name fs = Some (auth, fs') →
  auth = match mjoin (fs !! name) with
         | Some c => StoredCreds c
         | None => InitAuthCreds
         end
  ∧ (∀ m, mjoin (fs' !! m) = mjoin (fs !! m))
  ∧ (∀ m, is_Some (fs !! m) → fs' !! m = fs !! m)
  ∧ is_Some (fs' !! name)
  ∧ (∀ m, m ≠ name → fs' !! m = fs !! m).
Proof.
  unfold useMultiFileAuthState.
  destruct (fs !! name) as [[c|]|] eqn:Hfs; simpl.
  - intros [= <- <-]. rewrite Hfs. eauto 10.
  - intros [= <- <-]. rewrite Hfs. eauto 10.
  - destruct (creatable name); [|done]. intros [= <- <-].
    split; [done|]. split; [|split; [|split]].
    + intros m. destruct (decide (name = m)) as [<-|Hne].
      * by rewrite lookup_insert_eq, Hfs.
      * by rewrite lookup_insert_ne.
    + intros m [x Hx]. rewrite lookup_insert_ne; [done|]. congruence.
    + rewrite lookup_insert_eq. eauto.
    + intros m Hm. by rewrite lookup_insert_ne.
Qed.

Lemma useMultiFileAuthState_throws (name : string) (fs : gmap string Folder) :
  useMultiFileAuthState name fs = None
  ↔ fs !! name = None ∧ creatable name = false.
Proof.
  unfold useMultiFileAuthState.
  destruct (fs !! name) as [[c|]|]; simpl.
  - split; [done|]. by intros [? _].
  - split; [done|]. by intros [? _].
  - destruct (creatable name); split; try done. by intros [_ ?].
Qed.

Lemma loads_deregister (name m : string) (st : State) :
  loads name (set_sockets (delete m) st) ↔ loads name st.
Proof. done. Qed.

Lemma createSocketWhatsApp_spec (name : string) (st : State) :
  loads name st →
  let r := createSocketWhatsApp name st in
  outcome r = Resolved
  ∧ effects r = [CallUseMultiFileAuthState name;
                 CallMakeWASocket name (storedAuth st name)]
  ∧ sockets (state r) = <[name := length (wire st)]> (sockets st)
  ∧ wire (state r) = wire st ++ [(name, storedAuth st name)]
  ∧ ended (state r) = ended st
  ∧ connectionUpdateSubjects (state r) = connectionUpdateSubjects st
  ∧ received (state r) = received st
  ∧ pending (state r) = pending st
  ∧ (∀ m, credentialMaterial (state r) m = credentialMaterial st m)
  ∧ (∀ m, is_Some (tokens st !! m) → tokens (state r) !! m = tokens st !! m).
Proof.
  intros [[auth fs'] Hload].
  unfold createSocketWhatsApp, createSocket_load, storedAuth, credentialMaterial.
  rewrite Hload.
  destruct (useMultiFileAuthState_spec _ _ _ _ Hload) as (-> & Hm & Hk & _).
  simpl. repeat split; done.
Qed.

Lemma createSocketWhatsApp_hangs (name : string) (st : State) :
  ¬ loads name st →
  createSocketWhatsApp name st
  = {| state := st;
       effects := [CallUseMultiFileAuthState name];
       outcome := NeverSettles |}.
Proof.
  intros Hno. unfold createSocketWhatsApp, createSocket_load.
  destruct (useMultiFileAuthState name (tokens st)) as [[auth fs]|] eqn:Hload;
    [|done].
  exfalso. apply Hno. unfold loads. rewrite Hload. eauto.
Qed.

(** *** Names that are one path component *)

Lemma components_nonempty (s : string) : components s ≠ [].
Proof.
  induction s as [|c s IH]; simpl; [done|].
  destruct (Ascii.eqb c slash); [done|].
  by destruct (components s).
Qed.

Lemma components_single (s c : string) : components s = [c] → c = s.
Proof.
  revert c. induction s as [|a s IH]; intros c; simpl.
  - by intros [= <-].
  - destruct (Ascii.eqb a slash).
    + intros [= <- Hrest]. by destruct (components_nonempty s).
    + destruct (components s) as [|x xs] eqn:Hs;
        [by destruct (components_nonempty s)|].
      intros [= <- ->]. by rewrite (IH x eq_refl).
Qed.

Lemma length_append (a b : string) :
  String.length (String.append a b) = String.length a + String.length b.
Proof. induction a as [|c a IH]; simpl; [done|]. by rewrite IH. Qed.

Lemma simpleName_creatable (name : string) :
  simpleName name = true → creatable name = true.
Proof.
  unfold simpleName, creatable.
  destruct (components name) as [|c [|? ?]] eqn:Hc; try done.
  pose proof (components_single _ _ Hc) as ->.
  rewrite !andb_true_iff. intros ((((_ & _) & _) & Hlen) & Hnul).
  simpl. rewrite Hlen, Hnul. simpl. split; [done|].
  apply Nat.ltb_lt. apply Nat.leb_le in Hlen. rewrite length_append. simpl.
  unfold NAME_MAX, PATH_MAX in *. lia.
Qed.

Lemma simpleName_loads (name : string) (st : State) :
  simpleName name = true → loads name st.
Proof.
  intros Hn%simpleName_creatable. unfold loads, useMultiFileAuthState.
  rewrite Hn. destruct (tokens st !! name) as [[c|]|]; eauto.
Qed.

Lemma loadsSurely_loads (name : string) (st : State) :
  loadsSurely name st → loads name st.
Proof.
  intros [[f Hf]|Hn]; [|by apply simpleName_loads].
  unfold loads, useMultiFileAuthState. rewrite Hf. destruct f; eauto.
Qed.

(** ** The branches of handleConnectionUpdate *)

Section HandlerBranches.
Variables (name : string) (update : ConnectionState) (st : State).

Lemma handler_loggedOut :
  connection update = Some ConnClose →
  statusCodeOf update = Some DisconnectReason.loggedOut →
  handleConnectionUpdate_start name update st
  = Finished (handleConnectionUpdate name update st)
  ∧ state (handleConnectionUpdate name update st)
    = state (emitUpdate name update
               (handleLoggedOut name (set_sockets (delete name) st)))
  ∧ effects (handleConnectionUpdate name update st)
    = CallDeleteFolderRecursive name
      :: effects (emitUpdate name update
                    (handleLoggedOut name (set_sockets (delete name) st))).
Proof.
  intros Hc Hs. unfold handleConnectionUpdate, handleConnectionUpdate_start.
  rewrite Hs. rewrite decide_True by done. by rewrite decide_True by done.
Qed.

Lemma handler_restartRequired :
  connection update = Some ConnClose →
  statusCodeOf update = Some DisconnectReason.restartRequired →
  handleConnectionUpdate_start name update st
  = AwaitingCreate (set_sockets (delete name) st) name update
  ∧ handleConnectionUpdate name update st
    = handleConnectionUpdate_resume name update
        (createSocketWhatsApp name (set_sockets (delete name) st)).
Proof.
  intros Hc Hs. unfold handleConnectionUpdate, handleConnectionUpdate_start.
  rewrite Hs. rewrite decide_True by done.
  rewrite decide_False by (by intros [=]). by rewrite decide_True by done.
Qed.

Lemma handler_other_close :
  connection update = Some ConnClose →
  statusCodeOf update ≠ Some DisconnectReason.loggedOut →
  statusCodeOf update ≠ Some DisconnectReason.restartRequired →
  handleConnectionUpdate_start name update st
  = Finished (handleConnectionUpdate name update st)
  ∧ handleConnectionUpdate name update st
    = emitUpdate name update (set_sockets (delete name) st).
Proof.
  intros Hc H1 H2. unfold handleConnectionUpdate, handleConnectionUpdate_start.
  rewrite decide_True by done. rewrite decide_False by done.
  by rewrite decide_False by done.
Qed.

Lemma handler_not_close :
  connection update ≠ Some ConnClose →
  handleConnectionUpdate_start name update st
  = Finished (handleConnectionUpdate name update st)
  ∧ handleConnectionUpdate name update st = emitUpdate name update st.
Proof.
  intros Hc. unfold handleConnectionUpdate, handleConnectionUpdate_start.
  by rewrite decide_False by done.
Qed.

Lemma loads_or_throws :
  loads name st ∨ useMultiFileAuthState name (tokens st) = None.
Proof.
  unfold loads. destruct (useMultiFileAuthState name (tokens st)); eauto.
Qed.

Lemma handler_restartRequired_loads :
  connection update = Some ConnClose →
  statusCodeOf update = Some DisconnectReason.restartRequired →
  loads name st →
  state (handleConnectionUpdate name update st)
  = state (emitUpdate name update
             (state (createSocketWhatsApp name (set_sockets (delete name) st))))
  ∧ effects (handleConnectionUpdate name update st)
    = effects (createSocketWhatsApp name (set_sockets (delete name) st))
      ++ effects (emitUpdate name update
                    (state (createSocketWhatsApp name (set_sockets (delete name) st))))
  ∧ outcome (handleConnectionUpdate name update st)
    = outcome (emitUpdate name update
                 (state (createSocketWhatsApp name (set_sockets (delete name) st)))).
Proof.
  intros Hc Hs Hl. destruct (handler_restartRequired Hc Hs) as (_ & ->).
  unfold handleConnectionUpdate_resume.
  by destruct (createSocketWhatsApp_spec name (set_sockets (delete name) st) Hl)
    as (-> & _).
Qed.

Lemma handler_restartRequired_hangs :
  connection update = Some ConnClose →
  statusCodeOf update = Some DisconnectReason.restartRequired →
  useMultiFileAuthState name (tokens st) = None →
  handleConnectionUpdate name update st
  = {| state := set_sockets (delete name) st;
       effects := [CallUseMultiFileAuthState name];
       outcome := NeverSettles |}.
Proof.
  intros Hc Hs Hl. destruct (handler_restartRequired Hc Hs) as (_ & ->).
  rewrite createSocketWhatsApp_hangs; [done|].
  unfold loads. simpl. rewrite Hl. by intros [? ?].
Qed.

Lemma awaitsForever_false_start (r : Run) :
  handleConnectionUpdate_start name update st = Finished r →
  awaitsForever name update st = false.
Proof.
  intros Hstart. unfold awaitsForever. apply bool_decide_eq_false.
  intros (Hc & Hs & _).
  destruct (handler_restartRequired Hc Hs) as (Hstart' & _). congruence.
Qed.

(** The handler never touches the Subjects. *)
Lemma handler_subjects :
  connectionUpdateSubjects (state (handleConnectionUpdate name update st))
  = connectionUpdateSubjects st.
Proof.
  destruct (decide (connection update = Some ConnClose)) as [Hc|Hc].
  - destruct (decide (statusCodeOf update = Some DisconnectReason.loggedOut)) as [H1|H1];
      [|destruct (decide (statusCodeOf update = Some DisconnectReason.restartRequired))
          as [H2|H2]].
    + destruct (handler_loggedOut Hc H1) as (_ & -> & _).
      by destruct (emitUpdate_frame name update
                     (handleLoggedOut name (set_sockets (delete name) st)))
        as (_ & -> & _).
    + destruct loads_or_throws as [Hl|Hl].
      * destruct (handler_restartRequired_loads Hc H2 Hl) as (-> & _).
        destruct (emitUpdate_frame name update
                    (state (createSocketWhatsApp name (set_sockets (delete name) st))))
          as (_ & -> & _).
        by destruct (createSocketWhatsApp_spec name (set_sockets (delete name) st) Hl)
          as (_ & _ & _ & _ & _ & -> & _).
      * by rewrite (handler_restartRequired_hangs Hc H2 Hl).
    + destruct (handler_other_close Hc H1 H2) as (_ & ->).
      by destruct (emitUpdate_frame name update (set_sockets (delete name) st))
        as (_ & -> & _).
  - destruct (handler_not_close Hc) as (_ & ->).
    by destruct (emitUpdate_frame name update st) as (_ & -> & _).
Qed.

(** Unless the handler stays at its [await], every observer is handed the
    update once per registration on the Subject of [name], and nothing
    else. *)
Lemma handler_received o :
  awaitsForever name update st = false →
  inboxOf (received (state (handleConnectionUpdate name update st))) o
  = inboxOf (received st) o
    ++ replicate (occurrences o (observersOf st name)) update.
Proof.
  intros Hgo.
  destruct (decide (connection update = Some ConnClose)) as [Hc|Hc].
  - destruct (decide (statusCodeOf update = Some DisconnectReason.loggedOut)) as [H1|H1];
      [|destruct (decide (statusCodeOf update = Some DisconnectReason.restartRequired))
          as [H2|H2]].
    + destruct (handler_loggedOut Hc H1) as (_ & -> & _).
      by rewrite emitUpdate_received.
    + destruct loads_or_throws as [Hl|Hl].
      * destruct (handler_restartRequired_loads Hc H2 Hl) as (-> & _).
        rewrite emitUpdate_received. unfold observersOf.
        by destruct (createSocketWhatsApp_spec name (set_sockets (delete name) st) Hl)
          as (_ & _ & _ & _ & _ & -> & -> & _).
      * apply bool_decide_eq_false in Hgo. by destruct Hgo.
    + destruct (handler_other_close Hc H1 H2) as (_ & ->).
      by rewrite emitUpdate_received.
  - destruct (handler_not_close Hc) as (_ & ->).
    by rewrite emitUpdate_received.
Qed.

(** When the handler stays at its [await], nobody is handed anything. *)
Lemma handler_received_hangs :
  awaitsForever name update st = true →
  received (state (handleConnectionUpdate name update st)) = received st
  ∧ outcome (handleConnectionUpdate name update st) = NeverSettles
  ∧ opensIssued (effects (handleConnectionUpdate name update st)) = [].
Proof.
  intros (Hc & Hs & Hl)%bool_decide_eq_true.
  by rewrite (handler_restartRequired_hangs Hc Hs Hl).
Qed.

End HandlerBranches.

(** ** createSocketWhatsApp and names that are already registered *)



(** ** Listing the tokens directory *)

Lemma elem_of_getExistingSessionNames (name : string) (st : State) :
  name ∈ getExistingSessionNames st ↔ is_Some (tokens st !! name).
Proof.
  unfold getExistingSessionNames. rewrite list_elem_of_fmap. split.
  - intros ([k v] & -> & Hkv). apply elem_of_map_to_list in Hkv. by exists v.
  - intros [v Hv]. exists (name, v). split; [done|]. by apply elem_of_map_to_list.
Qed.

(** ** Close events *)



(** C5: a close whose status code is neither [loggedOut] nor
    [restartRequired] (a missing code included) is handled without awaiting
    anything: the name is removed from the registry, no socket is made and no
    call is left suspended, the tokens directory is untouched, and the update,
    which carries the failure, is handed to every observer registered for the
    name, once per registration. *)
Theorem unrecognized_close_deregisters_without_reconnect
    (name : string) (update : ConnectionState) (st : State) :
  connection update = Some ConnClose →
  statusCodeOf update ≠ Some DisconnectReason.loggedOut →
  statusCodeOf update ≠ Some DisconnectReason.restartRequired →
  handleConnectionUpdate_start name update st
    = Finished (handleConnectionUpdate name update st)
  ∧ sockets (state (handleConnectionUpdate name update st))
    = delete name (sockets st)
  ∧ getSocketByName name (state (handleConnectionUpdate name update st)) = None
  ∧ opensIssued (effects (handleConnectionUpdate name update st)) = []
  ∧ wire (state (handleConnectionUpdate name update st)) = wire st
  ∧ pending (state (handleConnectionUpdate name update st)) = pending st
  ∧ tokens (state (handleConnectionUpdate name update st)) = tokens st
  ∧ (∀ o, inboxOf (received (state (handleConnectionUpdate name update st))) o
          = inboxOf (received st) o
            ++ replicate (occurrences o (observersOf st name)) update).
Proof.
  intros Hc H1 H2.
  destruct (handler_other_close name update st Hc H1 H2) as (Hstart & Hrun).
  split; [done|].
  destruct (emitUpdate_frame name update (set_sockets (delete name) st))
    as (Hsock & _ & Htok & Hw & _ & Hp).
  destruct (emitUpdate_effects name update (set_sockets (delete name) st))
    as (Hopens & _).
  rewrite <- Hrun in Hsock, Htok, Hw, Hp, Hopens.
  unfold getSocketByName. rewrite Hsock, Htok, Hw, Hp, Hopens. simpl.
  rewrite lookup_delete_eq. repeat (split; [done|]).
  intros o. apply handler_received.
  apply bool_decide_eq_false. by intros (_ & ? & _).
Qed.

Lemma unrecognized_close_deregisters_without_reconnect_example :
  let st := step (Subscribe "acct5" 1)
              (state (createSocketWhatsApp "acct5" (initial ∅))) in
  let update := closedWith DisconnectReason.connectionLost in
  let r := handleConnectionUpdate "acct5" update st in
  (sockets st !! "acct5" = Some 0 ∧ observersOf st "acct5" = [1])
  ∧ handleConnectionUpdate_start "acct5" update st = Finished r
  ∧ sockets (state r) = delete "acct5" (sockets st)
  ∧ getSocketByName "acct5" (state r) = None
  ∧ opensIssued (effects r) = []
  ∧ wire (state r) = wire st
  ∧ pending (state r) = pending st
  ∧ tokens (state r) = tokens st
  ∧ (∀ o, inboxOf (received (state r)) o
          = inboxOf (received st) o
            ++ replicate (occurrences o (observersOf st "acct5")) update).
Proof.
  split; [by vm_compute|].
  apply (unrecognized_close_deregisters_without_reconnect "acct5"
           (closedWith DisconnectReason.connectionLost)
           (step (Subscribe "acct5" 1)
              (state (createSocketWhatsApp "acct5" (initial ∅)))));
    [reflexivity | by vm_compute | by vm_compute].
Defined.

(** C10: handling a close whose status code is not [loggedOut] deletes no
    folder: [deleteFolderRecursive] is not called, every folder of the tokens
    directory is there afterwards with the same content, and the credential
    material of every session is what it was.  (On [restartRequired] the
    folder of the name is created, empty, if it was missing.) *)
Theorem close_other_than_loggedOut_keeps_credentials
    (name : string) (update : ConnectionState) (st : State) :
  connection update = Some ConnClose →
  statusCodeOf update ≠ Some DisconnectReason.loggedOut →
  (∀ m, credentialMaterial (state (handleConnectionUpdate name update st)) m
        = credentialMaterial st m)
  ∧ (∀ m, is_Some (tokens st !! m) →
          tokens (state (handleConnectionUpdate name update st)) !! m
          = tokens st !! m)
  ∧ (∀ m, CallDeleteFolderRecursive m
          ∉ effects (handleConnectionUpdate name update st)).
Proof.
  intros Hc H1.
  destruct (decide (statusCodeOf update = Some DisconnectReason.restartRequired))
    as [H2|H2].
  - destruct (loads_or_throws name st) as [Hl|Hl].
    + destruct (handler_restartRequired_loads name update st Hc H2 Hl)
        as (-> & -> & _).
      set (st1 := set_sockets (delete name) st).
      destruct (createSocketWhatsApp_spec name st1 Hl)
        as (_ & He & _ & _ & _ & _ & _ & _ & Hcred & Hkeep).
      destruct (emitUpdate_frame name update (state (createSocketWhatsApp name st1)))
        as (_ & _ & Htok & _).
      destruct (emitUpdate_effects name update (state (createSocketWhatsApp name st1)))
        as (_ & Hnodel).
      split; [|split].
      * intros m. unfold credentialMaterial in *. rewrite Htok. apply Hcred.
      * intros m Hm. rewrite Htok. by apply Hkeep.
      * intros m [Hm|Hm]%elem_of_app; [|by apply (Hnodel m)].
        rewrite He in Hm.
        repeat (apply elem_of_cons in Hm as [Hm|Hm]; [done|]).
        by apply elem_of_nil in Hm.
    + rewrite (handler_restartRequired_hangs name update st Hc H2 Hl). simpl.
      split; [done|]. split; [done|].
      intros m Hm. apply elem_of_cons in Hm as [Hm|Hm]; [done|].
      by apply elem_of_nil in Hm.
  - destruct (handler_other_close name update st Hc H1 H2) as (_ & ->).
    destruct (emitUpdate_frame name update (set_sockets (delete name) st))
      as (_ & _ & Htok & _).
    destruct (emitUpdate_effects name update (set_sockets (delete name) st))
      as (_ & Hnodel).
    unfold credentialMaterial. rewrite Htok. simpl. done.
Qed.

Lemma close_other_than_loggedOut_keeps_credentials_example :
  let st := initial {["acct2" := Some 7]} in
  let r := handleConnectionUpdate "acct2"
             (closedWith DisconnectReason.restartRequired) st in
  (∀ m, credentialMaterial (state r) m = credentialMaterial st m)
  ∧ (∀ m, is_Some (tokens st !! m) → tokens (state r) !! m = tokens st !! m)
  ∧ (∀ m, CallDeleteFolderRecursive m ∉ effects r).
Proof.
  apply (close_other_than_loggedOut_keeps_credentials "acct2"
           (closedWith DisconnectReason.restartRequired)
           (initial {["acct2" := Some 7]}));
    [reflexivity | by vm_compute].
Defined.

(** ** The publish points *)

(** C6, as stated, fails in its "first event" half: when the first thing that
    happens for "acct1" is an update (here the pairing code), the handler
    finds no Subject, creates none and hands the update to nobody; an
    observer that subscribes next has received nothing. *)
Lemma first_event_creates_no_publish_point :
  let r := handleConnectionUpdate "acct1" (pairingCode "XYZ") (initial ∅) in
  connectionUpdateSubjects (state r) !! "acct1" = None
  ∧ effects r = []
  ∧ inboxOf (received (step (Subscribe "acct1" 1) (state r))) 1 = []
  ∧ ¬ publishPointCreatedOnEvent.
Proof.
  split; [by vm_compute|]. split; [by vm_compute|]. split; [by vm_compute|].
  intros Hclaim.
  destruct (Hclaim (initial ∅) "acct1" (pairingCode "XYZ")) as [s Hs].
  by vm_compute in Hs.
Qed.

(** C6, amended: the Subject of a name is created by
    [getConnectionUpdateObservable] alone, at the first call for that name
    (and never for a name that the empty object literal inherits, such as
    "toString", where the inherited member is returned instead); later calls
    return the Subject that is there.  Handling an update never creates,
    replaces or removes a Subject.  The handler hands the update to every
    observer currently registered for the name, once per registration, and
    to nobody when the name has no Subject: so for every update that is not
    a close with [restartRequired], and for such a close when the awaited
    createSocketWhatsApp resolves (the folder is there or the name is one
    path component).  When the folder is missing and cannot be created, the
    awaited call never settles, the emit is never reached and nobody is
    handed anything. *)
Theorem publish_point_created_by_subscription_only
    (name : string) (update : ConnectionState) (st : State) :
  connectionUpdateSubjects (state (handleConnectionUpdate name update st))
    = connectionUpdateSubjects st
  ∧ connectionUpdateSubjects (getConnectionUpdateObservable name st).2 !! name
    = match connectionUpdateSubjects st !! name with
      | Some subject => Some subject
      | None => if JsObject.inherited name then None else Some newSubject
      end
  ∧ (∀ m, m ≠ name →
       connectionUpdateSubjects (getConnectionUpdateObservable name st).2 !! m
       = connectionUpdateSubjects st !! m)
  ∧ (getConnectionUpdateObservable name st).1
    = JsObject.get
        (connectionUpdateSubjects (getConnectionUpdateObservable name st).2) name
  ∧ (¬ (connection update = Some ConnClose
        ∧ statusCodeOf update = Some DisconnectReason.restartRequired)
     ∨ loadsSurely name st →
     ∀ o, inboxOf (received (state (handleConnectionUpdate name update st))) o
          = inboxOf (received st) o
            ++ replicate (occurrences o (observersOf st name)) update)
  ∧ (connection update = Some ConnClose →
     statusCodeOf update = Some DisconnectReason.restartRequired →
     tokens st !! name = None → creatable name = false →
     received (state (handleConnectionUpdate name update st)) = received st).
Proof.
  split; [apply handler_subjects|].
  split; [|split; [|split; [|split]]];
    [| | |intros Hgo o; apply handler_received; apply bool_decide_eq_false;
          intros (Hc & Hs & Hl);
          destruct Hgo as [Hgo|Hgo%loadsSurely_loads];
          [by apply Hgo|unfold loads in Hgo; rewrite Hl in Hgo; by destruct Hgo]
     |intros Hc Hs Hno Hcr;
      apply (handler_received_hangs name update st);
      apply bool_decide_eq_true; split; [done|]; split; [done|];
      by apply useMultiFileAuthState_throws];
    unfold getConnectionUpdateObservable, JsObject.get;
    destruct (connectionUpdateSubjects st !! name) as [s|] eqn:Hs; simpl;
    rewrite ?Hs; try done;
    destruct (JsObject.inherited name) eqn:Hi; simpl;
    rewrite ?Hs, ?Hi, ?lookup_insert_eq; try done.
  intros m Hm. by rewrite lookup_insert_ne.
Qed.

(** ** The handler and the transport *)

Section TransportIndependence.
Variables (st1 st2 : State).
Hypothesis Hview : sessionView st1 = sessionView st2.

Lemma sessionView_fields :
  dom (sockets st1) = dom (sockets st2)
  ∧ connectionUpdateSubjects st1 = connectionUpdateSubjects st2
  ∧ tokens st1 = tokens st2
  ∧ received st1 = received st2
  ∧ pending st1 = pending st2.
Proof. unfold sessionView in Hview. by injection Hview. Qed.

Lemma sessionView_deregister name :
  sessionView (set_sockets (delete name) st1)
  = sessionView (set_sockets (delete name) st2).
Proof.
  destruct sessionView_fields as (Hd & Hs & Ht & Hr & Hp).
  unfold sessionView; simpl. rewrite !dom_delete_L, Hd, Hs, Ht, Hr, Hp. done.
Qed.

Lemma sessionView_handleLoggedOut name :
  sessionView (handleLoggedOut name st1) = sessionView (handleLoggedOut name st2).
Proof.
  destruct sessionView_fields as (Hd & Hs & Ht & Hr & Hp).
  unfold sessionView; simpl. rewrite Hd, Hs, Ht, Hr, Hp. done.
Qed.

Lemma sessionView_emitUpdate name update :
  sessionView (state (emitUpdate name update st1))
  = sessionView (state (emitUpdate name update st2))
  ∧ effects (emitUpdate name update st1) = effects (emitUpdate name update st2)
  ∧ outcome (emitUpdate name update st1) = outcome (emitUpdate name update st2).
Proof.
  destruct sessionView_fields as (Hd & Hs & Ht & Hr & Hp).
  unfold emitUpdate. rewrite Hs.
  destruct (JsObject.get _ _); simpl; repeat split; try done.
  unfold sessionView; simpl. rewrite Hd, Hs, Ht, Hr, Hp. done.
Qed.

Lemma sessionView_createSocketWhatsApp name :
  sessionView (state (createSocketWhatsApp name st1))
  = sessionView (state (createSocketWhatsApp name st2))
  ∧ effects (createSocketWhatsApp name st1) = effects (createSocketWhatsApp name st2)
  ∧ outcome (createSocketWhatsApp name st1) = outcome (createSocketWhatsApp name st2).
Proof.
  destruct sessionView_fields as (Hd & Hs & Ht & Hr & Hp).
  unfold createSocketWhatsApp, createSocket_load. rewrite Ht.
  destruct (useMultiFileAuthState name (tokens st2)) as [[auth fs]|]; simpl.
  - split; [|done].
    unfold sessionView; simpl. rewrite !dom_insert_L, Hd, Hs, Hr, Hp. done.
  - done.
Qed.

End TransportIndependence.

(** C8: what the handler does is a function of the name, the update and the
    manager as seen without the transport.  Two runs that start from states
    with the same registered names, Subjects, tokens directory, inboxes and
    suspended calls, on the same name and update, issue the same calls, settle
    the same way and end in states that again look the same, whatever handles
    the transport has produced or ended in either run. *)
Theorem handleConnectionUpdate_independent_of_transport
    (name : string) (update : ConnectionState) (st1 st2 : State) :
  sessionView st1 = sessionView st2 →
  sessionView (state (handleConnectionUpdate name update st1))
  = sessionView (state (handleConnectionUpdate name update st2))
  ∧ effects (handleConnectionUpdate name update st1)
    = effects (handleConnectionUpdate name update st2)
  ∧ outcome (handleConnectionUpdate name update st1)
    = outcome (handleConnectionUpdate name update st2).
Proof.
  intros Hview.
  pose proof (sessionView_deregister st1 st2 Hview name) as Hdel.
  destruct (decide (connection update = Some ConnClose)) as [Hc|Hc].
  - destruct (decide (statusCodeOf update = Some DisconnectReason.loggedOut)) as [H1|H1];
      [|destruct (decide (statusCodeOf update = Some DisconnectReason.restartRequired))
          as [H2|H2]].
    + destruct (handler_loggedOut name update st1 Hc H1) as (_ & -> & ->).
      destruct (handler_loggedOut name update st2 Hc H1) as (_ & -> & ->).
      unfold handleConnectionUpdate, handleConnectionUpdate_start.
      rewrite !decide_True by done. simpl.
      destruct (sessionView_emitUpdate _ _
                  (sessionView_handleLoggedOut _ _ Hdel name) name update)
        as (-> & -> & ->).
      done.
    + destruct (handler_restartRequired name update st1 Hc H2) as (_ & ->).
      destruct (handler_restartRequired name update st2 Hc H2) as (_ & ->).
      unfold handleConnectionUpdate_resume.
      destruct (sessionView_createSocketWhatsApp _ _ Hdel name) as (Hcr & -> & ->).
      destruct (sessionView_emitUpdate _ _ Hcr name update) as (He1 & He2 & He3).
      destruct (outcome (createSocketWhatsApp name (set_sockets (delete name) st2)));
        simpl; by rewrite ?He1, ?He2, ?He3, ?Hcr.
    + destruct (handler_other_close name update st1 Hc H1 H2) as (_ & ->).
      destruct (handler_other_close name update st2 Hc H1 H2) as (_ & ->).
      apply (sessionView_emitUpdate _ _ Hdel).
  - destruct (handler_not_close name update st1 Hc) as (_ & ->).
    destruct (handler_not_close name update st2 Hc) as (_ & ->).
    apply (sessionView_emitUpdate _ _ Hview).
Qed.

Lemma handleConnectionUpdate_independent_of_transport_example :
  let st1 := state (createSocketWhatsApp "acct2" (initial ∅)) in
  let st2 := state (createSocketWhatsApp "acct2"
               (state (handleConnectionUpdate "acct2"
                         (closedWith DisconnectReason.connectionLost) st1))) in
  let update := closedWith DisconnectReason.restartRequired in
  (sockets st1 !! "acct2" = Some 0 ∧ sockets st2 !! "acct2" = Some 1)
  ∧ sessionView (state (handleConnectionUpdate "acct2" update st1))
    = sessionView (state (handleConnectionUpdate "acct2" update st2))
  ∧ effects (handleConnectionUpdate "acct2" update st1)
    = effects (handleConnectionUpdate "acct2" update st2)
  ∧ outcome (handleConnectionUpdate "acct2" update st1)
    = outcome (handleConnectionUpdate "acct2" update st2).
Proof.
  split; [by vm_compute|].
  apply (handleConnectionUpdate_independent_of_transport "acct2"
           (closedWith DisconnectReason.restartRequired)
           (state (createSocketWhatsApp "acct2" (initial ∅)))
           (state (createSocketWhatsApp "acct2"
              (state (handleConnectionUpdate "acct2"
                        (closedWith DisconnectReason.connectionLost)
                        (state (createSocketWhatsApp "acct2" (initial ∅))))))));
    by vm_compute.
Defined.

(** ** The registry along a schedule *)

Lemma registryInvariant_ext (st st' : State) :
  sockets st' = sockets st → wire st' = wire st → ended st' = ended st →
  registryInvariant st → registryInvariant st'.
Proof.
  unfold registryInvariant, liveFor, sessionOf. by intros -> -> ->.
Qed.

Lemma registryInvariant_initial (fs : gmap string Folder) :
  registryInvariant (initial fs).
Proof.
  split; simpl.
  - intros name h Hh. by rewrite lookup_empty in Hh.
  - intros h Hh. by apply not_elem_of_empty in Hh.
Qed.

Lemma registryInvariant_finish (name : string) (auth : AuthState) (st : State) :
  registryInvariant st → registryInvariant (createSocket_finish name auth st).
Proof.
  intros [Hreg Hend]. split; simpl.
  - intros m h. unfold liveFor, sessionOf; simpl.
    destruct (decide (name = m)) as [<-|Hne].
    + rewrite lookup_insert_eq. intros [= <-]. split.
      * by rewrite list_lookup_middle.
      * intros Hin. apply Hend in Hin. lia.
    + rewrite lookup_insert_ne by done. intros Hh.
      destruct (Hreg m h Hh) as [Hs Hl]. split; [|done].
      unfold sessionOf in Hs.
      destruct (wire st !! h) as [x|] eqn:Hx; [|done].
      by rewrite (lookup_app_l_Some _ _ _ _ Hx).
  - intros h Hh. rewrite length_app. apply Hend in Hh. simpl. lia.
Qed.

Lemma registryInvariant_close (name : string) (h : Handle) (st : State) :
  sessionOf st h = Some name →
  registryInvariant st →
  registryInvariant (set_sockets (delete name) (set_ended (λ e, {[h]} ∪ e) st)).
Proof.
  intros Hname [Hreg Hend]. split; simpl.
  - intros m h'. unfold liveFor, sessionOf; simpl.
    destruct (decide (name = m)) as [<-|Hne].
    + by rewrite lookup_delete_eq.
    + rewrite lookup_delete_ne by done. intros Hh'.
      destruct (Hreg m h' Hh') as [Hs Hl]. split; [done|].
      intros [Heq%elem_of_singleton|Hin]%elem_of_union; [|done].
      subst h'. congruence.
  - intros h' [Heq%elem_of_singleton|Hin]%elem_of_union; [|by apply Hend].
    subst h'. unfold sessionOf in Hname.
    destruct (wire st !! h) as [x|] eqn:Hx; [|done].
    by apply lookup_lt_Some in Hx.
Qed.

Lemma registryInvariant_deregister (name : string) (st : State) :
  registryInvariant st → registryInvariant (set_sockets (delete name) st).
Proof.
  intros [Hreg Hend]. split; [|done]. simpl.
  intros m h'. unfold liveFor, sessionOf; simpl.
  destruct (decide (name = m)) as [<-|Hne].
  - by rewrite lookup_delete_eq.
  - rewrite lookup_delete_ne by done. apply Hreg.
Qed.

Lemma registryInvariant_emitUpdate (name : string) (update : ConnectionState) (st : State) :
  registryInvariant st → registryInvariant (state (emitUpdate name update st)).
Proof.
  destruct (emitUpdate_frame name update st) as (Hs & _ & _ & Hw & He & _).
  by apply registryInvariant_ext.
Qed.

Lemma registryInvariant_step (l : Label) (st : State) :
  registryInvariant st → registryInvariant (step l st).
Proof.
  intros Hinv. destruct l as [name|i|i|h update|h c|name o|name o]; simpl.
  - done.
  - destruct (pending st !! i) as [[name k|name auth k]|]; try done.
    unfold createSocket_load.
    by destruct (useMultiFileAuthState name (tokens st)) as [[? ?]|].
  - destruct (pending st !! i) as [[name k|name auth k]|]; try done.
    assert (registryInvariant
              (createSocket_finish name auth (set_pending (delete i) st))) as Hfin.
    { by apply registryInvariant_finish. }
    destruct k as [|name' update]; [done|].
    by apply registryInvariant_emitUpdate.
  - destruct (sessionOf st h) as [name|] eqn:Hname; [|done].
    case_decide as Hended; [done|].
    unfold handleConnectionUpdate_start, markEnded.
    destruct (decide (connection update = Some ConnClose)) as [Hc|Hc].
    + pose proof (registryInvariant_close name h st Hname Hinv) as Hcl.
      repeat case_decide; simpl.
      * apply registryInvariant_emitUpdate.
        revert Hcl. by apply registryInvariant_ext.
      * revert Hcl. by apply registryInvariant_ext.
      * by apply registryInvariant_emitUpdate.
    + by apply registryInvariant_emitUpdate.
  - destruct (sessionOf st h) as [name|]; [|done]. by case_decide.
  - unfold getConnectionUpdateObservable.
    by destruct (JsObject.get (connectionUpdateSubjects st) name).
  - done.
Qed.

Lemma registryInvariant_run (tr : list Label) (st : State) :
  registryInvariant st → registryInvariant (run tr st).
Proof.
  revert st. induction tr as [|l tr IH]; intros st Hinv; [done|].
  simpl. apply IH. by apply registryInvariant_step.
Qed.

(** C2, as stated, fails: two createSocketWhatsApp calls for "acct1", each run
    to its end, leave two handles made for "acct1", neither of which has
    ended. *)
Lemma two_live_handles_for_one_name :
  let st := run [CallCreate "acct1"; IOLoad 0; Resume 0;
                 CallCreate "acct1"; IOLoad 0; Resume 0] (initial ∅) in
  liveFor st "acct1" 0 ∧ liveFor st "acct1" 1 ∧ ¬ atMostOneLiveHandle.
Proof.
  set (st := run [CallCreate "acct1"; IOLoad 0; Resume 0;
                  CallCreate "acct1"; IOLoad 0; Resume 0] (initial ∅)).
  assert (ended st = ∅) as Hended by (by vm_compute).
  assert (liveFor st "acct1" 0) as H0.
  { split; [by vm_compute|]. rewrite Hended. apply not_elem_of_empty. }
  assert (liveFor st "acct1" 1) as H1.
  { split; [by vm_compute|]. rewrite Hended. apply not_elem_of_empty. }
  simpl. split; [done|]. split; [done|].
  intros Hclaim.
  assert (reachable st) as Hreach by (eexists ∅, _; reflexivity).
  by specialize (Hclaim st Hreach "acct1" 0 1 H0 H1).
Qed.

(** C2, amended: in every reachable state the registry binds a name to at
    most one handle, and a handle bound to a name was made for that name and
    has not ended.  (The handles that are live for one name are not bounded:
    createSocketWhatsApp makes a new one without ending or looking for an
    earlier one.) *)
Theorem registered_handle_is_live_and_unique (st : State) :
  reachable st →
  ∀ name h, sockets st !! name = Some h →
    liveFor st name h
    ∧ getSocketByName name st = Some h
    ∧ ∀ h', sockets st !! name = Some h' → h' = h.
Proof.
  intros (fs & tr & ->) name h Hh.
  destruct (registryInvariant_run tr (initial fs) (registryInvariant_initial fs))
    as [Hreg _].
  split; [by apply Hreg|]. split; [done|]. intros h' Hh'. congruence.
Qed.

Lemma registered_handle_is_live_and_unique_example :
  let st := run [CallCreate "acct1"; IOLoad 0; Resume 0;
                 CallCreate "acct1"; IOLoad 0; Resume 0] (initial ∅) in
  liveFor st "acct1" 1
  ∧ getSocketByName "acct1" st = Some 1
  ∧ ∀ h', sockets st !! "acct1" = Some h' → h' = 1.
Proof.
  apply (registered_handle_is_live_and_unique
           (run [CallCreate "acct1"; IOLoad 0; Resume 0;
                 CallCreate "acct1"; IOLoad 0; Resume 0] (initial ∅))).
  - exists ∅, [CallCreate "acct1"; IOLoad 0; Resume 0;
               CallCreate "acct1"; IOLoad 0; Resume 0]. reflexivity.
  - by vm_compute.
Defined.

(** ** getExistingSessionNames *)

(** C9, as stated, fails: while a second createSocketWhatsApp for "acct1"
    waits for its auth state, the first handle reports a logout, which
    removes the folder; the second call then registers its handle.  The name
    is in the registry and the listing is empty. *)
Lemma registered_name_missing_from_listing :
  let st := run [CallCreate "acct1"; IOLoad 0; Resume 0;
                 CallCreate "acct1"; IOLoad 0;
                 Emit 0 (closedWith DisconnectReason.loggedOut);
                 Resume 0] (initial ∅) in
  sockets st !! "acct1" = Some 1
  ∧ liveFor st "acct1" 1
  ∧ getExistingSessionNames st = []
  ∧ ¬ listsStoreAndRegistry.
Proof.
  set (st := run [CallCreate "acct1"; IOLoad 0; Resume 0;
                  CallCreate "acct1"; IOLoad 0;
                  Emit 0 (closedWith DisconnectReason.loggedOut);
                  Resume 0] (initial ∅)).
  assert (sockets st !! "acct1" = Some 1) as Hreg by (by vm_compute).
  assert (getExistingSessionNames st = []) as Hlist by (by vm_compute).
  assert (reachable st) as Hreach by (eexists ∅, _; reflexivity).
  simpl. split; [done|]. split; [|split; [done|]].
  - by apply (registryInvariant_run _ _ (registryInvariant_initial ∅)).
  - intros Hclaim. specialize (Hclaim st Hreach).
    rewrite Hlist in Hclaim. simpl in Hclaim.
    assert ("acct1" ∈ dom (tokens st) ∪ dom (sockets st)) as Hin.
    { apply elem_of_union. right. apply elem_of_dom. by exists 1. }
    rewrite <- Hclaim in Hin. by apply not_elem_of_empty in Hin.
Qed.

(** C9, amended: in every state getExistingSessionNames returns the names of
    the folders of the tokens directory, each once, and nothing else; the
    registry is not consulted, so rebinding or removing registry entries does
    not change the result. *)
Theorem getExistingSessionNames_lists_tokens_directory (st : State) :
  list_to_set (getExistingSessionNames st) =@{gset string} dom (tokens st)
  ∧ NoDup (getExistingSessionNames st)
  ∧ (∀ name, name ∈ getExistingSessionNames st ↔ is_Some (tokens st !! name))
  ∧ (∀ f, getExistingSessionNames (set_sockets f st) = getExistingSessionNames st).
Proof.
  split; [|split; [|split]].
  - apply set_eq. intros name.
    by rewrite elem_of_list_to_set, elem_of_dom, elem_of_getExistingSessionNames.
  - apply NoDup_fst_map_to_list.
  - intros name. apply elem_of_getExistingSessionNames.
  - done.
Qed.

(** ** What observers receive along a schedule *)

Lemma handler_start_awaiting
    (name : string) (update : ConnectionState) (st st1 : State)
    (name' : string) (update' : ConnectionState) :
  handleConnectionUpdate_start name update st = AwaitingCreate st1 name' update' →
  st1 = set_sockets (delete name) st ∧ name' = name ∧ update' = update.
Proof.
  unfold handleConnectionUpdate_start.
  repeat case_decide; intros [=]; by subst.
Qed.

Lemma handler_start_finished
    (name : string) (update : ConnectionState) (st : State) (r : Run) :
  handleConnectionUpdate_start name update st = Finished r →
  r = handleConnectionUpdate name update st.
Proof. unfold handleConnectionUpdate. by intros ->. Qed.

(** One callback appends to an inbox exactly what it publishes. *)
Lemma step_received (l : Label) (st : State) (o : Observer) :
  inboxOf (received (step l st)) o
  = inboxOf (received st) o ++ deliveredTo o l st.
Proof.
  unfold deliveredTo.
  destruct l as [name|i|i|h update|h c|name o'|name o']; simpl;
    try by rewrite app_nil_r.
  - destruct (pending st !! i) as [[name k|name auth k]|];
      try by rewrite app_nil_r.
    unfold createSocket_load.
    destruct (useMultiFileAuthState name (tokens st)) as [[? ?]|]; simpl;
      by rewrite app_nil_r.
  - destruct (pending st !! i) as [[name k|name auth k]|];
      try by rewrite app_nil_r.
    destruct k as [|name' update]; [by rewrite app_nil_r|].
    by rewrite emitUpdate_received.
  - destruct (sessionOf st h) as [name|]; [|by rewrite app_nil_r].
    case_decide; [by rewrite app_nil_r|].
    assert (received (markEnded h update st) = received st
            ∧ observersOf (markEnded h update st) name = observersOf st name)
      as [Hr Ho].
    { unfold markEnded. by case_decide. }
    destruct (handleConnectionUpdate_start name update (markEnded h update st))
      as [r|st1 name' update'] eqn:Hstart.
    + pose proof (awaitsForever_false_start _ _ _ _ Hstart) as Hgo.
      apply handler_start_finished in Hstart as ->.
      by rewrite handler_received, Hr, Ho.
    + apply handler_start_awaiting in Hstart as (-> & -> & ->). simpl.
      by rewrite Hr, app_nil_r.
  - destruct (sessionOf st h) as [name|]; [|by rewrite app_nil_r].
    case_decide; by rewrite app_nil_r.
  - unfold getConnectionUpdateObservable.
    destruct (JsObject.get (connectionUpdateSubjects st) name);
      by rewrite app_nil_r.
Qed.

Lemma run_app (tr1 tr2 : list Label) (st : State) :
  run (tr1 ++ tr2) st = run tr2 (run tr1 st).
Proof. apply foldl_app. Qed.

Lemma run_received (tr : list Label) (st : State) (o : Observer) :
  inboxOf (received (run tr st)) o
  = inboxOf (received st) o ++ deliveries o tr st.
Proof.
  revert st. induction tr as [|l tr IH]; intros st.
  - simpl. by rewrite app_nil_r.
  - change (run (l :: tr) st) with (run tr (step l st)).
    rewrite IH, step_received. simpl. by rewrite <- app_assoc.
Qed.

(** Whatever is delivered along a schedule was published by one of its
    callbacks. *)
Lemma elem_of_deliveries (o : Observer) (tr : list Label) (st : State)
    (update : ConnectionState) :
  update ∈ deliveries o tr st →
  ∃ done_ l rest name,
    tr = done_ ++ l :: rest
    ∧ publishedBy l (run done_ st) = Some (name, update)
    ∧ o ∈ observersOf (run done_ st) name.
Proof.
  revert st. induction tr as [|l tr IH]; intros st; simpl.
  - by intros ?%elem_of_nil.
  - intros [Hnow|Hlater]%elem_of_app.
    + exists [], l, tr. unfold deliveredTo in Hnow.
      destruct (publishedBy l st) as [[name u]|] eqn:Hp;
        [|by apply elem_of_nil in Hnow].
      apply elem_of_replicate in Hnow as [-> Hn].
      exists name. repeat split; try done.
      destruct (decide (o ∈ observersOf st name)) as [|Hnot]; [done|].
      by rewrite occurrences_not_elem in Hn.
    + destruct (IH _ Hlater) as (d & l' & rest & name & -> & Hp & Ho).
      by exists (l :: d), l', rest, name.
Qed.

(** Only subscribing changes who is registered, and only for the observer
    that subscribes. *)
Lemma step_not_subscribed (l : Label) (st : State) (o : Observer) :
  ¬ subscribedSomewhere st o → ¬ subscribes o l →
  ¬ subscribedSomewhere (step l st) o.
Proof.
  intros Hnot Hl.
  assert (connectionUpdateSubjects (step l st) = connectionUpdateSubjects st
          → ¬ subscribedSomewhere (step l st) o) as Hsame.
  { unfold subscribedSomewhere. by intros ->. }
  destruct l as [name|i|i|h update|h c|name o'|name o']; simpl in *.
  - by apply Hsame.
  - apply Hsame; simpl.
    destruct (pending st !! i) as [[name k|name auth k]|]; try done.
    unfold createSocket_load.
    by destruct (useMultiFileAuthState name (tokens st)) as [[? ?]|].
  - apply Hsame; simpl.
    destruct (pending st !! i) as [[name k|name auth k]|]; try done.
    destruct k as [|name' update]; [done|].
    by destruct (emitUpdate_frame name' update
                   (createSocket_finish name auth (set_pending (delete i) st)))
      as (_ & -> & _).
  - apply Hsame; simpl.
    destruct (sessionOf st h) as [name|]; [|done].
    case_decide; [done|].
    assert (connectionUpdateSubjects (markEnded h update st)
            = connectionUpdateSubjects st) as Hm.
    { unfold markEnded. by case_decide. }
    destruct (handleConnectionUpdate_start name update (markEnded h update st))
      as [r|st1 name' update'] eqn:Hstart.
    + apply handler_start_finished in Hstart as ->.
      by rewrite handler_subjects.
    + by apply handler_start_awaiting in Hstart as (-> & -> & ->).
  - apply Hsame; simpl.
    destruct (sessionOf st h) as [name|]; [|done]. by case_decide.
  - intros (m & s & Hs & Hin). apply Hnot.
    unfold getConnectionUpdateObservable, JsObject.get in Hs.
    destruct (connectionUpdateSubjects st !! name) as [s0|] eqn:Hown; simpl in Hs.
    + destruct (decide (name = m)) as [<-|Hne].
      * rewrite lookup_insert_eq in Hs. injection Hs as <-. simpl in Hin.
        apply elem_of_app in Hin as [Hin|Hin]; [by exists name, s0|].
        apply list_elem_of_singleton in Hin. by subst.
      * rewrite lookup_insert_ne in Hs by done. by exists m, s.
    + destruct (JsObject.inherited name); simpl in Hs; [by exists m, s|].
      destruct (decide (name = m)) as [<-|Hne].
      * rewrite insert_insert_eq, lookup_insert_eq in Hs. injection Hs as <-.
        simpl in Hin. apply list_elem_of_singleton in Hin. by subst.
      * rewrite insert_insert_eq, lookup_insert_ne in Hs by done. by exists m, s.
  - intros (m & s & Hs & Hin). apply Hnot. simpl in Hs.
    destruct (decide (name = m)) as [<-|Hne].
    + rewrite lookup_alter_eq in Hs.
      destruct (connectionUpdateSubjects st !! name) as [s0|] eqn:Hown; [|done].
      injection Hs as <-. simpl in Hin. exists name, s0. split; [done|].
      by apply elem_of_removeFirst in Hin.
    + rewrite lookup_alter_ne in Hs by done. by exists m, s.
Qed.

Lemma deliveredTo_not_subscribed (l : Label) (st : State) (o : Observer) :
  ¬ subscribedSomewhere st o → deliveredTo o l st = [].
Proof.
  intros Hnot. unfold deliveredTo.
  destruct (publishedBy l st) as [[name update]|]; [|done].
  rewrite occurrences_not_elem; [done|].
  unfold observersOf.
  destruct (connectionUpdateSubjects st !! name) as [s|] eqn:Hs.
  - intros Hin. apply Hnot. by exists name, s.
  - by intros ?%elem_of_nil.
Qed.

Lemma deliveries_not_subscribed (tr : list Label) (st : State) (o : Observer) :
  ¬ subscribedSomewhere st o → Forall (λ l, ¬ subscribes o l) tr →
  deliveries o tr st = [].
Proof.
  revert st. induction tr as [|l tr IH]; intros st Hnot Htr; [done|].
  apply Forall_cons in Htr as [Hl Htr]. simpl.
  rewrite deliveredTo_not_subscribed by done.
  apply IH; [|done]. by apply step_not_subscribed.
Qed.

Lemma deliveries_app (o : Observer) (tr1 tr2 : list Label) (st : State) :
  deliveries o (tr1 ++ tr2) st
  = deliveries o tr1 st ++ deliveries o tr2 (run tr1 st).
Proof.
  revert st. induction tr1 as [|l tr1 IH]; intros st; simpl; [done|].
  by rewrite IH, app_assoc.
Qed.

(** C7: an observer that is registered nowhere and subscribes only after a
    schedule [before] has run has, right after subscribing, received none of
    the updates published during [before]; and whatever it receives during
    any later schedule [after] was published by a callback of [after], so a
    past update is never handed to it later on either. *)
Theorem late_subscriber_receives_no_past_update
    (st : State) (before after : list Label) (name : string) (o : Observer) :
  ¬ subscribedSomewhere st o →
  Forall (λ l, ¬ subscribes o l) before →
  inboxOf (received (run (before ++ [Subscribe name o]) st)) o
    = inboxOf (received st) o
  ∧ inboxOf (received (run (before ++ Subscribe name o :: after) st)) o
    = inboxOf (received st) o
      ++ deliveries o after (run (before ++ [Subscribe name o]) st)
  ∧ (∀ update,
       update ∈ deliveries o after (run (before ++ [Subscribe name o]) st) →
       ∃ done_ l rest name',
         after = done_ ++ l :: rest
         ∧ publishedBy l (run done_ (run (before ++ [Subscribe name o]) st))
           = Some (name', update)).
Proof.
  intros Hnot Hbefore.
  assert (inboxOf (received (run (before ++ [Subscribe name o]) st)) o
          = inboxOf (received st) o) as Hsub.
  { rewrite run_received, deliveries_app.
    rewrite deliveries_not_subscribed by done. simpl.
    by rewrite app_nil_r. }
  split; [done|]. split.
  - replace (before ++ Subscribe name o :: after)
      with ((before ++ [Subscribe name o]) ++ after)
      by (by rewrite <- app_assoc).
    by rewrite run_app, run_received, Hsub.
  - intros update Hin.
    destruct (elem_of_deliveries _ _ _ _ Hin) as (d & l & rest & n & -> & Hp & _).
    by exists d, l, rest, n.
Qed.

Lemma late_subscriber_receives_no_past_update_example :
  let before := [CallCreate "acct1"; IOLoad 0; Resume 0; Subscribe "acct1" 2;
                 Emit 0 (pairingCode "XYZ")] in
  let after := [Emit 0 opened] in
  let st' := run (before ++ [Subscribe "acct1" 1]) (initial ∅) in
  (inboxOf (received st') 2 = [pairingCode "XYZ"]
   ∧ deliveries 1 after st' = [opened])
  ∧ inboxOf (received st') 1 = inboxOf (received (initial ∅)) 1
  ∧ inboxOf (received (run (before ++ Subscribe "acct1" 1 :: after) (initial ∅))) 1
    = inboxOf (received (initial ∅)) 1 ++ deliveries 1 after st'
  ∧ (∀ update, update ∈ deliveries 1 after st' →
       ∃ done_ l rest name',
         after = done_ ++ l :: rest
         ∧ publishedBy l (run done_ st') = Some (name', update)).
Proof.
  split; [by vm_compute|].
  apply (late_subscriber_receives_no_past_update (initial ∅)
           [CallCreate "acct1"; IOLoad 0; Resume 0; Subscribe "acct1" 2;
            Emit 0 (pairingCode "XYZ")]
           [Emit 0 opened] "acct1" 1).
  - intros (m & s & Hs & _). simpl in Hs. by rewrite lookup_empty in Hs.
  - repeat constructor; simpl; lia.
Defined.

(** ** The uninterrupted runs as schedules *)

Lemma pending_round_trip (p : list Task) (t t' : Task) :
  (p ++ [t]) !! length p = Some t
  ∧ delete (length p) (<[length p := t']> (p ++ [t])) = p
  ∧ <[length p := t']> (p ++ [t]) !! length p = Some t'.
Proof.
  split; [by rewrite list_lookup_middle|].
  assert (<[length p := t']> (p ++ [t]) = p ++ [t']) as ->.
  { replace (length p) with (length p + 0) at 1 by lia.
    by rewrite insert_app_r. }
  split; [|by rewrite list_lookup_middle].
  induction p as [|x p IH]; simpl; [done|]. by rewrite IH.
Qed.

(** createSocketWhatsApp, called from outside and not interleaved with
    anything, is the schedule call, load, resume. *)
Lemma createSocketWhatsApp_as_schedule (name : string) (st : State) :
  loads name st →
  run [CallCreate name; IOLoad (length (pending st)); Resume (length (pending st))] st
  = state (createSocketWhatsApp name st).
Proof.
  intros [[auth fs] Hload].
  unfold run, createSocketWhatsApp, createSocket_load; simpl.
  destruct (pending_round_trip (pending st) (Loading name KCaller)
              (Loaded name auth KCaller))
    as (Hl & Hd & Hl').
  rewrite Hl. unfold createSocket_load; simpl. rewrite Hload. simpl.
  rewrite Hl'. unfold createSocket_finish, set_sockets, set_wire, set_pending; simpl.
  by rewrite Hd.
Qed.


(** ** The three callbacks of a reconnection, one at a time

    When other callbacks run during the [await], the reconnection still
    consists of one suspended call, one read of [tokens/<name>] and one
    [makeWASocket]. *)

Lemma restartRequired_suspends_one_create
    (h : Handle) (name : string) (update : ConnectionState) (st : State) :
  sessionOf st h = Some name → h ∉ ended st →
  connection update = Some ConnClose →
  statusCodeOf update = Some DisconnectReason.restartRequired →
  pending (step (Emit h update) st)
    = pending st ++ [Loading name (KHandler name update)]
  ∧ wire (step (Emit h update) st) = wire st
  ∧ tokens (step (Emit h update) st) = tokens st
  ∧ sockets (step (Emit h update) st) = delete name (sockets st).
Proof.
  intros Hname Hlive Hc Hs. simpl. rewrite Hname, decide_False by done.
  destruct (handler_restartRequired name update (markEnded h update st) Hc Hs)
    as (-> & _).
  unfold markEnded. by rewrite decide_True by done.
Qed.


Lemma load_that_throws_ends_the_call
    (i : nat) (name : string) (k : Cont) (st : State) :
  pending st !! i = Some (Loading name k) →
  ¬ loads name st →
  step (IOLoad i) st = set_pending (delete i) st.
Proof.
  intros Hi Hno. simpl. rewrite Hi. unfold createSocket_load.
  destruct (useMultiFileAuthState name (tokens st)) as [[auth fs]|] eqn:Hload;
    [|done].
  exfalso. apply Hno. unfold loads. rewrite Hload. eauto.
Qed.


(** ** Close with restartRequired *)




(** * Further properties of the manager *)

(** For the examples: no handle has ended in the state at hand. *)
Ltac none_ended :=
  match goal with
  | |- _ ∉ ended ?s =>
      let H := fresh in
      assert (ended s = ∅) as H by (by vm_compute);
      rewrite H; apply not_elem_of_empty
  end.

Lemma createSocketWhatsApp_tokens_other (name m : string) (st : State) :
  m ≠ name →
  tokens (state (createSocketWhatsApp name st)) !! m = tokens st !! m.
Proof.
  intros Hm. unfold createSocketWhatsApp, createSocket_load.
  destruct (useMultiFileAuthState name (tokens st)) as [[auth fs]|] eqn:Hload;
    [|done].
  simpl. destruct (useMultiFileAuthState_spec _ _ _ _ Hload) as (_ & _ & _ & _ & Ho).
  by apply Ho.
Qed.

Lemma createSocketWhatsApp_folder (name : string) (st : State) :
  loads name st →
  is_Some (tokens (state (createSocketWhatsApp name st)) !! name).
Proof.
  intros [[auth fs] Hload]. unfold createSocketWhatsApp, createSocket_load.
  rewrite Hload. simpl.
  by destruct (useMultiFileAuthState_spec _ _ _ _ Hload) as (_ & _ & _ & ? & _).
Qed.

(** For a name that is one path component, createSocketWhatsApp(name)
    resolves, and from then on getSocketByName(name) returns the handle just
    made and getExistingSessionNames() lists the name. *)
Theorem created_session_is_found_and_listed (name : string) (st : State) :
  simpleName name = true →
  outcome (createSocketWhatsApp name st) = Resolved
  ∧ getSocketByName name (state (createSocketWhatsApp name st))
    = Some (length (wire st))
  ∧ sessionOf (state (createSocketWhatsApp name st)) (length (wire st)) = Some name
  ∧ name ∈ getExistingSessionNames (state (createSocketWhatsApp name st)).
Proof.
  intros Hl%(simpleName_loads name st).
  destruct (createSocketWhatsApp_spec name st Hl) as (Ho & _ & Hs & Hw & _).
  unfold getSocketByName, sessionOf. rewrite Ho, Hs, Hw, lookup_insert_eq.
  split; [done|]. split; [done|]. split; [by rewrite list_lookup_middle|].
  apply elem_of_getExistingSessionNames. by apply createSocketWhatsApp_folder.
Qed.

Lemma created_session_is_found_and_listed_example :
  let st := initial ∅ in
  outcome (createSocketWhatsApp "acct1" st) = Resolved
  ∧ getSocketByName "acct1" (state (createSocketWhatsApp "acct1" st))
    = Some (length (wire st))
  ∧ sessionOf (state (createSocketWhatsApp "acct1" st)) (length (wire st))
    = Some "acct1"
  ∧ "acct1" ∈ getExistingSessionNames (state (createSocketWhatsApp "acct1" st)).
Proof.
  apply (created_session_is_found_and_listed "acct1" (initial ∅)).
  reflexivity.
Defined.

(** createSocketWhatsApp(name) changes the credential material of no session,
    its own included, and touches neither Subjects nor inboxes; when [name]
    and another name are each one path component, it leaves the other name's
    registry entry and folder as they are. *)
Theorem createSocketWhatsApp_leaves_the_rest (name : string) (st : State) :
  simpleName name = true →
  (∀ m, credentialMaterial (state (createSocketWhatsApp name st)) m
        = credentialMaterial st m)
  ∧ (∀ m, simpleName m = true → m ≠ name →
       getSocketByName m (state (createSocketWhatsApp name st)) = getSocketByName m st
       ∧ tokens (state (createSocketWhatsApp name st)) !! m = tokens st !! m)
  ∧ connectionUpdateSubjects (state (createSocketWhatsApp name st))
    = connectionUpdateSubjects st
  ∧ received (state (createSocketWhatsApp name st)) = received st.
Proof.
  intros Hl%(simpleName_loads name st).
  destruct (createSocketWhatsApp_spec name st Hl)
    as (_ & _ & Hs & _ & _ & Hsub & Hrec & _ & Hcred & _).
  split; [done|]. split; [|done].
  intros m _ Hm. unfold getSocketByName. rewrite Hs.
  split; [by rewrite lookup_insert_ne|]. by apply createSocketWhatsApp_tokens_other.
Qed.

Lemma createSocketWhatsApp_leaves_the_rest_example :
  let st := state (createSocketWhatsApp "acct1" (initial {["acct1" := Some 7]})) in
  (∀ m, credentialMaterial (state (createSocketWhatsApp "acct2" st)) m
        = credentialMaterial st m)
  ∧ (∀ m, simpleName m = true → m ≠ "acct2" →
       getSocketByName m (state (createSocketWhatsApp "acct2" st)) = getSocketByName m st
       ∧ tokens (state (createSocketWhatsApp "acct2" st)) !! m = tokens st !! m)
  ∧ connectionUpdateSubjects (state (createSocketWhatsApp "acct2" st))
    = connectionUpdateSubjects st
  ∧ received (state (createSocketWhatsApp "acct2" st)) = received st.
Proof.
  apply (createSocketWhatsApp_leaves_the_rest "acct2"
           (state (createSocketWhatsApp "acct1" (initial {["acct1" := Some 7]})))).
  reflexivity.
Defined.

Section HandlerIsolation.
Variables (name : string) (update : ConnectionState) (st : State).

Lemma handler_sockets_other m :
  m ≠ name →
  sockets (state (handleConnectionUpdate name update st)) !! m = sockets st !! m.
Proof.
  intros Hm.
  destruct (decide (connection update = Some ConnClose)) as [Hc|Hc].
  - destruct (decide (statusCodeOf update = Some DisconnectReason.loggedOut)) as [H1|H1];
      [|destruct (decide (statusCodeOf update = Some DisconnectReason.restartRequired))
          as [H2|H2]].
    + destruct (handler_loggedOut name update st Hc H1) as (_ & -> & _).
      destruct (emitUpdate_frame name update
                  (handleLoggedOut name (set_sockets (delete name) st)))
        as (-> & _).
      simpl. by rewrite lookup_delete_ne.
    + destruct (loads_or_throws name st) as [Hl|Hl].
      * destruct (handler_restartRequired_loads name update st Hc H2 Hl)
          as (-> & _).
        destruct (emitUpdate_frame name update
                    (state (createSocketWhatsApp name (set_sockets (delete name) st))))
          as (-> & _).
        destruct (createSocketWhatsApp_spec name (set_sockets (delete name) st) Hl)
          as (_ & _ & -> & _).
        rewrite lookup_insert_ne by done. simpl. by rewrite lookup_delete_ne.
      * rewrite (handler_restartRequired_hangs name update st Hc H2 Hl). simpl.
        by rewrite lookup_delete_ne.
    + destruct (handler_other_close name update st Hc H1 H2) as (_ & ->).
      destruct (emitUpdate_frame name update (set_sockets (delete name) st))
        as (-> & _).
      simpl. by rewrite lookup_delete_ne.
  - destruct (handler_not_close name update st Hc) as (_ & ->).
    by destruct (emitUpdate_frame name update st) as (-> & _).
Qed.

Lemma handler_tokens_other m :
  m ≠ name →
  tokens (state (handleConnectionUpdate name update st)) !! m = tokens st !! m.
Proof.
  intros Hm.
  destruct (decide (connection update = Some ConnClose)) as [Hc|Hc].
  - destruct (decide (statusCodeOf update = Some DisconnectReason.loggedOut)) as [H1|H1];
      [|destruct (decide (statusCodeOf update = Some DisconnectReason.restartRequired))
          as [H2|H2]].
    + destruct (handler_loggedOut name update st Hc H1) as (_ & -> & _).
      destruct (emitUpdate_frame name update
                  (handleLoggedOut name (set_sockets (delete name) st)))
        as (_ & _ & -> & _).
      simpl. unfold deleteFolderRecursive. by rewrite lookup_delete_ne.
    + destruct (loads_or_throws name st) as [Hl|Hl].
      * destruct (handler_restartRequired_loads name update st Hc H2 Hl)
          as (-> & _).
        destruct (emitUpdate_frame name update
                    (state (createSocketWhatsApp name (set_sockets (delete name) st))))
          as (_ & _ & -> & _).
        by rewrite createSocketWhatsApp_tokens_other.
      * by rewrite (handler_restartRequired_hangs name update st Hc H2 Hl).
    + destruct (handler_other_close name update st Hc H1 H2) as (_ & ->).
      by destruct (emitUpdate_frame name update (set_sockets (delete name) st))
        as (_ & _ & -> & _).
  - destruct (handler_not_close name update st Hc) as (_ & ->).
    by destruct (emitUpdate_frame name update st) as (_ & _ & -> & _).
Qed.

End HandlerIsolation.

(** When [name] and another name are each one path component, handling an
    update for [name] leaves the other name's registry entry, folder and
    Subject as they are; and whatever the names, it hands nothing to an
    observer that is not registered on the Subject of [name]. *)
Theorem handleConnectionUpdate_leaves_other_sessions
    (name m : string) (update : ConnectionState) (st : State) :
  simpleName name = true → simpleName m = true → m ≠ name →
  getSocketByName m (state (handleConnectionUpdate name update st))
    = getSocketByName m st
  ∧ tokens (state (handleConnectionUpdate name update st)) !! m = tokens st !! m
  ∧ connectionUpdateSubjects (state (handleConnectionUpdate name update st)) !! m
    = connectionUpdateSubjects st !! m
  ∧ (∀ o, o ∉ observersOf st name →
       inboxOf (received (state (handleConnectionUpdate name update st))) o
       = inboxOf (received st) o).
Proof.
  intros _ _ Hm. split; [by apply handler_sockets_other|].
  split; [by apply handler_tokens_other|].
  split; [by rewrite handler_subjects|].
  intros o Ho. destruct (awaitsForever name update st) eqn:Hgo.
  - by destruct (handler_received_hangs name update st Hgo) as (-> & _).
  - rewrite handler_received, occurrences_not_elem by done. apply app_nil_r.
Qed.

Lemma handleConnectionUpdate_leaves_other_sessions_example :
  let st := step (Subscribe "acct2" 9)
              (state (createSocketWhatsApp "acct2"
                 (state (createSocketWhatsApp "acct1" (initial ∅))))) in
  let r := handleConnectionUpdate "acct1"
             (closedWith DisconnectReason.loggedOut) st in
  (getSocketByName "acct2" st = Some 1 ∧ tokens st !! "acct2" = Some None)
  ∧ getSocketByName "acct2" (state r) = getSocketByName "acct2" st
  ∧ tokens (state r) !! "acct2" = tokens st !! "acct2"
  ∧ connectionUpdateSubjects (state r) !! "acct2"
    = connectionUpdateSubjects st !! "acct2"
  ∧ (∀ o, o ∉ observersOf st "acct1" →
       inboxOf (received (state r)) o = inboxOf (received st) o).
Proof.
  split; [by vm_compute|].
  apply (handleConnectionUpdate_leaves_other_sessions "acct1" "acct2"
           (closedWith DisconnectReason.loggedOut)
           (step (Subscribe "acct2" 9)
              (state (createSocketWhatsApp "acct2"
                 (state (createSocketWhatsApp "acct1" (initial ∅)))))));
    by vm_compute.
Defined.

(** An update that is not a close ('open', 'connecting', or no [connection]
    field, such as a pairing code) changes neither the registry nor the
    tokens directory, makes no socket and suspends nothing: it is only handed
    to the observers. *)
Theorem update_other_than_close_only_notifies
    (name : string) (update : ConnectionState) (st : State) :
  connection update ≠ Some ConnClose →
  handleConnectionUpdate_start name update st
    = Finished (handleConnectionUpdate name update st)
  ∧ sockets (state (handleConnectionUpdate name update st)) = sockets st
  ∧ tokens (state (handleConnectionUpdate name update st)) = tokens st
  ∧ wire (state (handleConnectionUpdate name update st)) = wire st
  ∧ pending (state (handleConnectionUpdate name update st)) = pending st
  ∧ opensIssued (effects (handleConnectionUpdate name update st)) = []
  ∧ (∀ m, CallDeleteFolderRecursive m
          ∉ effects (handleConnectionUpdate name update st)).
Proof.
  intros Hc. destruct (handler_not_close name update st Hc) as (Hstart & Hrun).
  split; [done|]. rewrite Hrun.
  destruct (emitUpdate_frame name update st) as (-> & _ & -> & -> & _ & ->).
  destruct (emitUpdate_effects name update st) as (-> & Hnodel).
  done.
Qed.

Lemma update_other_than_close_only_notifies_example :
  let st := state (createSocketWhatsApp "acct1" (initial ∅)) in
  let r := handleConnectionUpdate "acct1" opened st in
  handleConnectionUpdate_start "acct1" opened st = Finished r
  ∧ sockets (state r) = sockets st
  ∧ tokens (state r) = tokens st
  ∧ wire (state r) = wire st
  ∧ pending (state r) = pending st
  ∧ opensIssued (effects r) = []
  ∧ (∀ m, CallDeleteFolderRecursive m ∉ effects r).
Proof.
  apply (update_other_than_close_only_notifies "acct1" opened
           (state (createSocketWhatsApp "acct1" (initial ∅)))).
  by vm_compute.
Defined.

Lemma handler_outcome (name : string) (update : ConnectionState) (st : State) :
  outcome (handleConnectionUpdate name update st)
  = if awaitsForever name update st then NeverSettles
    else match connectionUpdateSubjects st !! name with
         | Some _ => Resolved
         | None => if JsObject.inherited name then RejectedTypeError else Resolved
         end.
Proof.
  assert (∀ st', connectionUpdateSubjects st' = connectionUpdateSubjects st →
            outcome (emitUpdate name update st')
            = match connectionUpdateSubjects st !! name with
              | Some _ => Resolved
              | None => if JsObject.inherited name then RejectedTypeError
                        else Resolved
              end) as Hemit.
  { intros st' Hst'. unfold emitUpdate, JsObject.get. rewrite Hst'.
    destruct (connectionUpdateSubjects st !! name) as [s|]; [done|].
    by destruct (JsObject.inherited name). }
  destruct (awaitsForever name update st) eqn:Hgo.
  - by destruct (handler_received_hangs name update st Hgo) as (_ & -> & _).
  - apply bool_decide_eq_false in Hgo.
    destruct (decide (connection update = Some ConnClose)) as [Hc|Hc].
    + destruct (decide (statusCodeOf update = Some DisconnectReason.loggedOut)) as [H1|H1];
        [|destruct (decide (statusCodeOf update = Some DisconnectReason.restartRequired))
            as [H2|H2]].
      * unfold handleConnectionUpdate, handleConnectionUpdate_start.
        rewrite !decide_True by done. simpl. by apply Hemit.
      * destruct (loads_or_throws name st) as [Hl|Hl]; [|by destruct Hgo].
        destruct (handler_restartRequired_loads name update st Hc H2 Hl)
          as (_ & _ & ->).
        apply Hemit.
        by destruct (createSocketWhatsApp_spec name (set_sockets (delete name) st) Hl)
          as (_ & _ & _ & _ & _ & -> & _).
      * destruct (handler_other_close name update st Hc H1 H2) as (_ & ->).
        by apply Hemit.
    + destruct (handler_not_close name update st Hc) as (_ & ->). by apply Hemit.
Qed.

(** How the Promise of handleConnectionUpdate settles.  For an update that
    is not a close with [restartRequired], and for such a close when the
    folder of the name is there or the name is one path component, it
    rejects, with the TypeError of calling [next] on an inherited member,
    exactly when the name has no Subject of its own and is a member of
    Object.prototype, and resolves otherwise.  For a close with
    [restartRequired] when the folder is missing and cannot be created, it
    never settles: the awaited createSocketWhatsApp stays pending. *)
Theorem handleConnectionUpdate_settles
    (name : string) (update : ConnectionState) (st : State) :
  (¬ (connection update = Some ConnClose
      ∧ statusCodeOf update = Some DisconnectReason.restartRequired)
   ∨ loadsSurely name st →
   (outcome (handleConnectionUpdate name update st) = RejectedTypeError
    ↔ connectionUpdateSubjects st !! name = None
      ∧ JsObject.inherited name = true)
   ∧ (outcome (handleConnectionUpdate name update st) = Resolved
      ↔ ¬ (connectionUpdateSubjects st !! name = None
           ∧ JsObject.inherited name = true)))
  ∧ (connection update = Some ConnClose →
     statusCodeOf update = Some DisconnectReason.restartRequired →
     tokens st !! name = None → creatable name = false →
     outcome (handleConnectionUpdate name update st) = NeverSettles).
Proof.
  rewrite handler_outcome. split.
  - intros Hgo.
    assert (awaitsForever name update st = false) as ->.
    { apply bool_decide_eq_false. intros (Hc & Hs & Hl).
      destruct Hgo as [Hgo|Hgo%loadsSurely_loads]; [by apply Hgo|].
      unfold loads in Hgo. rewrite Hl in Hgo. by destruct Hgo. }
    destruct (connectionUpdateSubjects st !! name) as [s|].
    + split; [split; [done|by intros [? _]]|].
      split; [|done]. intros _. by intros [? _].
    + destruct (JsObject.inherited name).
      * split; [done|]. split; [done|]. intros H. by destruct H.
      * split; [split; [done|by intros [_ ?]]|].
        split; [|done]. intros _. by intros [_ ?].
  - intros Hc Hs Hno Hcr.
    assert (awaitsForever name update st = true) as ->; [|done].
    apply bool_decide_eq_true. split; [done|]. split; [done|].
    by apply useMultiFileAuthState_throws.
Qed.

(** getConnectionUpdateObservable(name) is idempotent: a second call returns
    what the first returned and changes nothing.  A call never changes the
    observers of any name, so asking for the Subject again does not drop the
    subscriptions that exist. *)
Theorem getConnectionUpdateObservable_idempotent (name : string) (st : State) :
  getConnectionUpdateObservable name (getConnectionUpdateObservable name st).2
    = getConnectionUpdateObservable name st
  ∧ (∀ m, observersOf (getConnectionUpdateObservable name st).2 m = observersOf st m)
  ∧ sockets (getConnectionUpdateObservable name st).2 = sockets st
  ∧ tokens (getConnectionUpdateObservable name st).2 = tokens st.
Proof.
  unfold getConnectionUpdateObservable, JsObject.get, observersOf.
  destruct (connectionUpdateSubjects st !! name) as [s|] eqn:Hs; simpl.
  - by rewrite Hs.
  - destruct (JsObject.inherited name) eqn:Hi; simpl.
    + by rewrite Hs, ?Hi.
    + rewrite lookup_insert_eq. repeat split; try done.
      intros m. destruct (decide (name = m)) as [<-|Hne].
      * by rewrite lookup_insert_eq, Hs.
      * by rewrite lookup_insert_ne.
Qed.

(** ** Subjects and subscriptions along a schedule *)

Lemma elem_of_removeFirst_ne (o x : Observer) (l : list Observer) :
  x ≠ o → x ∈ l → x ∈ removeFirst o l.
Proof.
  intros Hx. induction l as [|y l IH]; simpl; [done|].
  intros [->|Hin]%elem_of_cons.
  - rewrite decide_False by done. by left.
  - case_decide; [done|]. right. by apply IH.
Qed.

Lemma step_subjects_unchanged (l : Label) (st : State) :
  (∀ name o, l ≠ Subscribe name o ∧ l ≠ Unsubscribe name o) →
  connectionUpdateSubjects (step l st) = connectionUpdateSubjects st.
Proof.
  intros Hl. destruct l as [name|i|i|h update|h c|name o'|name o']; simpl.
  - done.
  - destruct (pending st !! i) as [[name k|name auth k]|]; try done.
    unfold createSocket_load.
    by destruct (useMultiFileAuthState name (tokens st)) as [[? ?]|].
  - destruct (pending st !! i) as [[name k|name auth k]|]; try done.
    destruct k as [|name' update]; [done|].
    by destruct (emitUpdate_frame name' update
                   (createSocket_finish name auth (set_pending (delete i) st)))
      as (_ & -> & _).
  - destruct (sessionOf st h) as [name|]; [|done].
    case_decide; [done|].
    assert (connectionUpdateSubjects (markEnded h update st)
            = connectionUpdateSubjects st) as Hm.
    { unfold markEnded. by case_decide. }
    destruct (handleConnectionUpdate_start name update (markEnded h update st))
      as [r|st1 name' update'] eqn:Hstart.
    + apply handler_start_finished in Hstart as ->.
      by rewrite handler_subjects.
    + by apply handler_start_awaiting in Hstart as (-> & -> & ->).
  - destruct (sessionOf st h) as [name|]; [|done]. by case_decide.
  - by destruct (Hl name o') as [? _].
  - by destruct (Hl name o') as [_ ?].
Qed.

Lemma step_subject_kept (l : Label) (st : State) (name : string) :
  is_Some (connectionUpdateSubjects st !! name) →
  is_Some (connectionUpdateSubjects (step l st) !! name).
Proof.
  intros Hsome.
  destruct l as [m|i|i|h update|h c|m o'|m o'];
    try (rewrite step_subjects_unchanged; [done|by intros ? ?]).
  - simpl. unfold getConnectionUpdateObservable, JsObject.get.
    destruct (connectionUpdateSubjects st !! m) as [s|] eqn:Hs; simpl.
    + destruct (decide (m = name)) as [->|Hne].
      * rewrite lookup_insert_eq. eauto.
      * by rewrite lookup_insert_ne.
    + destruct (JsObject.inherited m); simpl; [done|].
      destruct (decide (m = name)) as [->|Hne].
      * rewrite lookup_insert_eq. eauto.
      * by rewrite !lookup_insert_ne.
  - simpl. destruct (decide (m = name)) as [->|Hne].
    + rewrite lookup_alter_eq. destruct Hsome as [s ->]. simpl. eauto.
    + by rewrite lookup_alter_ne.
Qed.

Lemma step_observer_kept (l : Label) (st : State) (name : string) (o : Observer) :
  o ∈ observersOf st name → l ≠ Unsubscribe name o →
  o ∈ observersOf (step l st) name.
Proof.
  intros Hin Hl. unfold observersOf in *.
  destruct l as [m|i|i|h update|h c|m o'|m o'];
    try (rewrite step_subjects_unchanged; [done|by intros ? ?]).
  - simpl. unfold getConnectionUpdateObservable, JsObject.get.
    destruct (connectionUpdateSubjects st !! m) as [s|] eqn:Hs; simpl.
    + destruct (decide (m = name)) as [->|Hne].
      * rewrite lookup_insert_eq. simpl. rewrite Hs in Hin.
        apply elem_of_app. by left.
      * by rewrite lookup_insert_ne.
    + destruct (JsObject.inherited m); simpl; [done|].
      destruct (decide (m = name)) as [->|Hne].
      * rewrite Hs in Hin. by apply elem_of_nil in Hin.
      * by rewrite !lookup_insert_ne.
  - simpl. destruct (decide (m = name)) as [->|Hne].
    + rewrite lookup_alter_eq.
      destruct (connectionUpdateSubjects st !! name) as [s|]; simpl; [|done].
      apply elem_of_removeFirst_ne; [|done]. intros ->. by apply Hl.
    + by rewrite lookup_alter_ne.
Qed.

(** The manager never removes a Subject: once a name has one, it has one
    after every schedule, whether the session is closed, logged out, or its
    last observer unsubscribes. *)
Theorem subjects_are_never_removed (tr : list Label) (st : State) (name : string) :
  is_Some (connectionUpdateSubjects st !! name) →
  is_Some (connectionUpdateSubjects (run tr st) !! name).
Proof.
  revert st. induction tr as [|l tr IH]; intros st Hsome; [done|].
  change (run (l :: tr) st) with (run tr (step l st)).
  apply IH. by apply step_subject_kept.
Qed.

Lemma subjects_are_never_removed_example :
  let st := step (Subscribe "acct1" 1)
              (state (createSocketWhatsApp "acct1" (initial ∅))) in
  let tr := [Emit 0 (closedWith DisconnectReason.loggedOut); Unsubscribe "acct1" 1] in
  (getSocketByName "acct1" (run tr st) = None
   ∧ observersOf (run tr st) "acct1" = [])
  ∧ is_Some (connectionUpdateSubjects (run tr st) !! "acct1").
Proof.
  split; [by vm_compute|].
  apply (subjects_are_never_removed
           [Emit 0 (closedWith DisconnectReason.loggedOut); Unsubscribe "acct1" 1]
           (step (Subscribe "acct1" 1)
              (state (createSocketWhatsApp "acct1" (initial ∅))))
           "acct1").
  vm_compute. eauto.
Defined.

(** An observer registered for a name stays registered over every schedule in
    which it does not unsubscribe from that name: closes, logouts and
    reconnections of the session do not end a subscription. *)
Theorem observers_stay_registered
    (tr : list Label) (st : State) (name : string) (o : Observer) :
  o ∈ observersOf st name →
  Unsubscribe name o ∉ tr →
  o ∈ observersOf (run tr st) name.
Proof.
  revert st. induction tr as [|l tr IH]; intros st Hin Htr; [done|].
  change (run (l :: tr) st) with (run tr (step l st)).
  apply IH.
  - apply step_observer_kept; [done|]. intros ->. apply Htr. by left.
  - intros ?. apply Htr. by right.
Qed.

Lemma observers_stay_registered_example :
  let st := step (Subscribe "acct1" 1)
              (state (createSocketWhatsApp "acct1" (initial ∅))) in
  let tr := [Emit 0 (closedWith DisconnectReason.loggedOut);
             CallCreate "acct1"; IOLoad 0; Resume 0; Emit 1 opened] in
  inboxOf (received (run tr st)) 1
    = [closedWith DisconnectReason.loggedOut; opened]
  ∧ 1 ∈ observersOf (run tr st) "acct1".
Proof.
  split; [by vm_compute|].
  apply (observers_stay_registered
           [Emit 0 (closedWith DisconnectReason.loggedOut);
            CallCreate "acct1"; IOLoad 0; Resume 0; Emit 1 opened]
           (step (Subscribe "acct1" 1)
              (state (createSocketWhatsApp "acct1" (initial ∅))))
           "acct1" 1).
  - vm_compute. by left.
  - intros Hin. repeat (apply elem_of_cons in Hin as [Hin|Hin]; [done|]).
    by apply elem_of_nil in Hin.
Defined.

(** ** Several handles for one name *)

Lemma emit_close_step
    (st : State) (h : Handle) (name : string) (update : ConnectionState) :
  sessionOf st h = Some name → h ∉ ended st →
  connection update = Some ConnClose →
  sockets (step (Emit h update) st) = delete name (sockets st)
  ∧ wire (step (Emit h update) st) = wire st
  ∧ ended (step (Emit h update) st) = {[h]} ∪ ended st.
Proof.
  intros Hname Hlive Hc. simpl. rewrite Hname, decide_False by done.
  assert (markEnded h update st = set_ended (λ e, {[h]} ∪ e) st) as ->.
  { unfold markEnded. by rewrite decide_True. }
  set (st0 := set_ended (λ e, {[h]} ∪ e) st).
  destruct (decide (statusCodeOf update = Some DisconnectReason.loggedOut)) as [H1|H1];
    [|destruct (decide (statusCodeOf update = Some DisconnectReason.restartRequired))
        as [H2|H2]].
  - destruct (handler_loggedOut name update st0 Hc H1) as (-> & -> & _).
    by destruct (emitUpdate_frame name update
                   (handleLoggedOut name (set_sockets (delete name) st0)))
      as (-> & _ & _ & -> & -> & _).
  - by destruct (handler_restartRequired name update st0 Hc H2) as (-> & _).
  - destruct (handler_other_close name update st0 Hc H1 H2) as (-> & ->).
    by destruct (emitUpdate_frame name update (set_sockets (delete name) st0))
      as (-> & _ & _ & -> & -> & _).
Qed.

(** The listener of every handle removes the registry entry of its session
    name, whichever handle the entry holds.  So when a name is bound to a
    handle and another, still live handle made for the same name reports a
    close, the name is unregistered although the handle it was bound to has
    not ended. *)
Theorem close_from_other_handle_unregisters_bound_one
    (st : State) (h h' : Handle) (name : string) (update : ConnectionState) :
  sessionOf st h = Some name → h ∉ ended st →
  sockets st !! name = Some h' → h' ≠ h → live st h' →
  connection update = Some ConnClose →
  getSocketByName name (step (Emit h update) st) = None
  ∧ live (step (Emit h update) st) h'.
Proof.
  intros Hname Hlive Hbound Hne [Hmade Hlive'] Hc.
  destruct (emit_close_step st h name update Hname Hlive Hc) as (Hs & Hw & He).
  unfold getSocketByName, live. rewrite Hs, Hw, He, lookup_delete_eq.
  split; [done|]. split; [done|].
  intros [?%elem_of_singleton|?]%elem_of_union; done.
Qed.

Lemma close_from_other_handle_unregisters_bound_one_example :
  let st := state (createSocketWhatsApp "acct1"
              (state (createSocketWhatsApp "acct1" (initial ∅)))) in
  let update := closedWith DisconnectReason.connectionReplaced in
  getSocketByName "acct1" st = Some 1
  ∧ getSocketByName "acct1" (step (Emit 0 update) st) = None
  ∧ live (step (Emit 0 update) st) 1.
Proof.
  split; [by vm_compute|].
  apply (close_from_other_handle_unregisters_bound_one
           (state (createSocketWhatsApp "acct1"
              (state (createSocketWhatsApp "acct1" (initial ∅)))))
           0 1 "acct1" (closedWith DisconnectReason.connectionReplaced)).
  - by vm_compute.
  - none_ended.
  - by vm_compute.
  - lia.
  - split; [vm_compute; eauto|]. none_ended.
  - reflexivity.
Defined.

(** ** Credentials across logout, save and create *)

(** For a name that is one path component, a createSocketWhatsApp that
    follows the handling of a logged-out close for the same name starts from
    [initAuthCreds()], whatever credentials the folder held before the
    logout, and leaves a new folder without [creds.json]. *)
Theorem create_after_logout_starts_fresh
    (name : string) (update : ConnectionState) (st : State) :
  simpleName name = true →
  connection update = Some ConnClose →
  statusCodeOf update = Some DisconnectReason.loggedOut →
  outcome (createSocketWhatsApp name
             (state (handleConnectionUpdate name update st))) = Resolved
  ∧ opensIssued
      (effects (createSocketWhatsApp name
                  (state (handleConnectionUpdate name update st))))
    = [(name, InitAuthCreds)]
  ∧ tokens (state (createSocketWhatsApp name
                     (state (handleConnectionUpdate name update st)))) !! name
    = Some None.
Proof.
  intros Hn Hc Hs.
  set (st' := state (handleConnectionUpdate name update st)).
  assert (tokens st' !! name = None) as Hgone.
  { unfold st'. destruct (handler_loggedOut name update st Hc Hs) as (_ & -> & _).
    destruct (emitUpdate_frame name update
                (handleLoggedOut name (set_sockets (delete name) st)))
      as (_ & _ & -> & _).
    simpl. unfold deleteFolderRecursive. apply lookup_delete_eq. }
  destruct (createSocketWhatsApp_spec name st' (simpleName_loads name st' Hn))
    as (-> & -> & _).
  split; [done|]. split.
  - unfold storedAuth, credentialMaterial. by rewrite Hgone.
  - unfold createSocketWhatsApp, createSocket_load, useMultiFileAuthState.
    rewrite Hgone, (simpleName_creatable name Hn). simpl.
    by rewrite lookup_insert_eq.
Qed.

Lemma create_after_logout_starts_fresh_example :
  let st := initial {["acct3" := Some 7]} in
  let st' := state (handleConnectionUpdate "acct3"
                      (closedWith DisconnectReason.loggedOut) st) in
  storedAuth st "acct3" = StoredCreds 7
  ∧ outcome (createSocketWhatsApp "acct3" st') = Resolved
  ∧ opensIssued (effects (createSocketWhatsApp "acct3" st'))
    = [("acct3", InitAuthCreds)]
  ∧ tokens (state (createSocketWhatsApp "acct3" st')) !! "acct3" = Some None.
Proof.
  split; [by vm_compute|].
  apply (create_after_logout_starts_fresh "acct3"
           (closedWith DisconnectReason.loggedOut)
           (initial {["acct3" := Some 7]}));
    reflexivity.
Defined.



(** ** The reconnection window *)

Lemma restartRequired_suspends_one_create_example :
  let st := state (createSocketWhatsApp "acct2" (initial ∅)) in
  let update := closedWith DisconnectReason.restartRequired in
  getSocketByName "acct2" st = Some 0
  ∧ pending (step (Emit 0 update) st)
    = pending st ++ [Loading "acct2" (KHandler "acct2" update)]
  ∧ wire (step (Emit 0 update) st) = wire st
  ∧ tokens (step (Emit 0 update) st) = tokens st
  ∧ sockets (step (Emit 0 update) st) = delete "acct2" (sockets st).
Proof.
  split; [by vm_compute|].
  apply (restartRequired_suspends_one_create 0 "acct2"
           (closedWith DisconnectReason.restartRequired)
           (state (createSocketWhatsApp "acct2" (initial ∅)))).
  - by vm_compute.
  - none_ended.
  - reflexivity.
  - reflexivity.
Defined.

(** * The controller *)

Section ControllerFacts.
Import Controller.
Variable service : WhatsappService.

(** [create] answers 200 exactly when the request has a truthy key, the
    service reports no session for it (a falsy value) and [initInstance]
    resolves with a response that has [data.qrcode]; the body is then the
    [url] of that qrcode. *)
Theorem create_answers_200_exactly_when (req : CreateRequest) (r : Response) :
  sent (create service req) = Some r ∧ status r = 200
  ↔ ∃ b session response d q,
      body req = Some b
      ∧ Js.truthy (key b) = true
      ∧ getSessionByKey service (key b) = Fulfilled session
      ∧ Js.truthy session = false
      ∧ initInstance service (key b) = Fulfilled response
      ∧ data response = Some d
      ∧ qrcode d = Some q
      ∧ r = {| status := 200; json := JsonQrcode (url q) |}.
Proof.
  unfold create. split.
  - intros [Hsent Hstatus].
    destruct (body req) as [b|]; [|done].
    destruct (Js.truthy (key b)) eqn:Hk; simpl in Hsent;
      [|by injection Hsent as <-].
    destruct (getSessionByKey service (key b)) as [session|] eqn:Hg;
      [|by injection Hsent as <-].
    destruct (Js.truthy session) eqn:Hs; simpl in Hsent;
      [by injection Hsent as <-|].
    destruct (initInstance service (key b)) as [response|] eqn:Hi;
      [|by injection Hsent as <-].
    destruct (data response) as [d|] eqn:Hd; simpl in Hsent;
      [|by injection Hsent as <-].
    destruct (qrcode d) as [q|] eqn:Hq; simpl in Hsent;
      [|by injection Hsent as <-].
    injection Hsent as <-. by exists b, session, response, d, q.
  - intros (b & session & response & d & q & Hb & Hk & Hg & Hs & Hi & Hd & Hq & ->).
    rewrite Hb. simpl. rewrite Hk. simpl. rewrite Hg. simpl. rewrite Hs. simpl.
    rewrite Hi. simpl. rewrite Hd. simpl. by rewrite Hq.
Qed.

(** [create] calls [initInstance] exactly when the key is truthy and
    [getSessionByKey] resolved with a falsy value, then once, with that key
    and after [getSessionByKey]; without a truthy key it calls nothing. *)
Theorem create_calls_initInstance_exactly_when (req : CreateRequest) (k : Js.Value) :
  (InitInstance k ∈ calls (create service req)
   ↔ ∃ b session,
       body req = Some b ∧ key b = k
       ∧ Js.truthy k = true
       ∧ getSessionByKey service k = Fulfilled session
       ∧ Js.truthy session = false)
  ∧ (InitInstance k ∈ calls (create service req) →
     calls (create service req) = [GetSessionByKey k; InitInstance k])
  ∧ ((∀ b, body req = Some b → Js.truthy (key b) = false) →
     calls (create service req) = []).
Proof.
  unfold create.
  destruct (body req) as [b|]; simpl;
    [destruct (Js.truthy (key b)) eqn:Hk; simpl;
      [destruct (getSessionByKey service (key b)) as [session|] eqn:Hg; simpl;
        [destruct (Js.truthy session) eqn:Hs; simpl|]|]|];
    rewrite ?elem_of_cons, ?elem_of_nil.
  all: (split; [split|split]).
  all: try (intros (b' & s' & Hb & Hkey & Hk' & Hg' & Hs'); simplify_eq).
  all: try (intros H; specialize (H b eq_refl); congruence).
  all: try (intros [H|[H|[]]]; simplify_eq; eauto 10).
  all: try (intros [H|[]]; simplify_eq; eauto 10).
  all: try (intros []; fail).
  all: try done.
  all: try (right; left; done).
  all: congruence.
Qed.

(** [create] sends no response exactly when the request has no body (the
    read of [req.body.key] throws outside the [try]); otherwise the status is
    200, 400 or 500, and it is 400 exactly when the key is truthy and the
    service resolved with a truthy session, in which case [initInstance] is
    not called. *)
Theorem create_statuses (req : CreateRequest) :
  (sent (create service req) = None ↔ body req = None)
  ∧ (∀ r, sent (create service req) = Some r →
       (status r = 200 ∨ status r = 400 ∨ status r = 500)
       ∧ (status r = 400
          ↔ ∃ b session,
              body req = Some b
              ∧ Js.truthy (key b) = true
              ∧ getSessionByKey service (key b) = Fulfilled session
              ∧ Js.truthy session = true)
       ∧ (status r = 400 →
          calls (create service req)
          = match body req with
            | Some b => [GetSessionByKey (key b)]
            | None => []
            end)).
Proof.
  unfold create.
  destruct (body req) as [b|]; simpl; [|by split].
  destruct (Js.truthy (key b)) eqn:Hk; simpl.
  - destruct (getSessionByKey service (key b)) as [session|] eqn:Hg; simpl.
    + destruct (Js.truthy session) eqn:Hs; simpl.
      * split; [by split|]. intros r [= <-]; simpl.
        split; [by right; left|]. split; [|done].
        split; [|done]. intros _. by exists b, session.
      * split; [by split|]. intros r [= <-].
        assert (∀ r' : Response,
                  status r' = 200 ∨ status r' = 500 →
                  (status r' = 200 ∨ status r' = 400 ∨ status r' = 500)
                  ∧ (status r' = 400
                     ↔ ∃ b0 session0,
                         Some b = Some b0 ∧ Js.truthy (key b0) = true
                         ∧ getSessionByKey service (key b0) = Fulfilled session0
                         ∧ Js.truthy session0 = true)
                  ∧ (status r' = 400 →
                     [GetSessionByKey (key b); InitInstance (key b)]
                     = [GetSessionByKey (key b)])) as Hcase.
        { intros r' Hr'. split; [tauto|]. split.
          - split; [intros Hr; destruct Hr' as [?|?]; congruence|].
            intros (b0 & s0 & [= <-] & _ & Hg0 & Hs0). congruence.
          - intros Hr. destruct Hr' as [?|?]; congruence. }
        apply Hcase.
        destruct (initInstance service (key b)) as [response|]; [|by right].
        destruct (data response) as [d|]; simpl; [|by right].
        destruct (qrcode d); simpl; [by left|by right].
    + split; [by split|]. intros r [= <-]; simpl.
      split; [by right; right|]. split; [|done].
      split; [done|]. intros (b0 & s0 & [= <-] & _ & Hg0 & _). congruence.
  - split; [by split|]. intros r [= <-]; simpl.
    split; [by right; right|]. split; [|done].
    split; [done|]. intros (b0 & s0 & [= <-] & Hk0 & _). congruence.
Qed.

(** [show] always sends a response, with status 200 or 500 and never 404: it
    is 200 exactly when the key parameter is a non-empty string and
    [getSessionByKey] resolved, and the body is then whatever the service
    resolved with, a missing session (a falsy value) included. *)
Theorem show_answers_with_what_the_service_returns (req : ShowRequest) :
  ∃ r, sent (show service req) = Some r
       ∧ (status r = 200 ∨ status r = 500)
       ∧ (status r = 200
          ↔ ∃ k session,
              paramKey req = Some k ∧ k ≠ ""
              ∧ getSessionByKey service (Js.VString k) = Fulfilled session
              ∧ json r = JsonSession session)
       ∧ (calls (show service req) = []
          ↔ paramKey req = None ∨ paramKey req = Some "").
Proof.
  unfold show. destruct (paramKey req) as [k|]; simpl.
  - destruct (String.eqb k "") eqn:Hk; simpl.
    + apply String.eqb_eq in Hk as ->.
      eexists; split; [done|]. simpl. split; [by right|]. split.
      * split; [done|]. by intros (k & s & [= <-] & ? & _).
      * split; [by right|done].
    + apply String.eqb_neq in Hk.
      eexists; split; [done|]. split; [|split].
      * destruct (getSessionByKey service (Js.VString k)); simpl; [by left|by right].
      * destruct (getSessionByKey service (Js.VString k)) as [s|] eqn:Hg; simpl.
        -- split; [|done]. intros _. exists k, s. repeat split; auto.
        -- split; [done|]. intros (k' & s & [= <-] & _ & Hg' & _). congruence.
      * split; [done|]. intros [?|[= ->]]; done.
  - eexists; split; [done|]. simpl. split; [by right|]. split.
    + split; [done|]. by intros (k & s & ? & _).
    + split; [by left|done].
Qed.

End ControllerFacts.

(** * The route table *)

Section RouteFacts.
Import Routes.
Variable pathMatches : string → string → bool.
Variable passes : Middleware → Request → bool.

Ltac walk_routes :=
  unfold routes; simpl;
  repeat match goal with
         | |- context [decide (?m = ?m')] =>
             destruct (decide (m = m')); simpl; try congruence
         | |- context [pathMatches ?p ?q] =>
             destruct (pathMatches p q) eqn:?; simpl
         | |- context [passes ?m ?r] =>
             destruct (passes m r) eqn:?; simpl
         end.

(** A request is served by a handler only after the middlewares registered
    before its route have run and called [next()]: [authenticateTenant] for
    the tenant routes, [authenticateTenant] and then [tenantStatusCheck] for
    the WhatsApp routes, and none for [POST /session]. *)
Theorem served_handler_ran_its_middlewares (req : Request) (h : Handler) :
  (dispatch pathMatches passes routes req).2 = Served h →
  (dispatch pathMatches passes routes req).1
  = match h with
    | SessionController_create => []
    | TenantController_index | TenantController_create
    | TenantController_show | TenantController_delete => [authenticateTenant]
    | WhatsAppController_create | WhatsAppController_show =>
        [authenticateTenant; tenantStatusCheck]
    end
  ∧ Forall (λ m, passes m req = true) (dispatch pathMatches passes routes req).1.
Proof.
  walk_routes; intros; simplify_eq/=; split; try done;
    repeat constructor; done.
Qed.

(** [POST /session] is served by [SessionController.create] whatever the
    middlewares would answer: it is registered before them. *)
Theorem session_route_is_public (req : Request) :
  method req = POST → pathMatches "/session" (path req) = true →
  dispatch pathMatches passes routes req = ([], Served SessionController_create).
Proof.
  intros Hm Hp. unfold routes; simpl.
  rewrite decide_True by done. by rewrite Hp.
Qed.

(** A request that [authenticateTenant] does not let through and that is not
    a [POST /session] ends at that middleware, whether or not its path is
    that of any route; [tenantStatusCheck] and the handlers do not run. *)
Theorem unauthenticated_request_stops_at_authenticateTenant (req : Request) :
  passes authenticateTenant req = false →
  ¬ (method req = POST ∧ pathMatches "/session" (path req) = true) →
  dispatch pathMatches passes routes req
  = ([authenticateTenant], Stopped authenticateTenant).
Proof.
  intros Hauth Hnot. unfold routes; simpl. rewrite Hauth.
  case_decide as Hm; [|done].
  destruct (pathMatches "/session" (path req)) eqn:Hp; [|done].
  exfalso. by apply Hnot.
Qed.

(** The router is left without a match only after both middlewares have let
    the request through. *)
Theorem unmatched_only_after_both_middlewares (req : Request) :
  (dispatch pathMatches passes routes req).2 = Unmatched →
  passes authenticateTenant req = true
  ∧ passes tenantStatusCheck req = true
  ∧ (dispatch pathMatches passes routes req).1
    = [authenticateTenant; tenantStatusCheck].
Proof.
  walk_routes; intros; simplify_eq/=; done.
Qed.

End RouteFacts.

Lemma served_handler_ran_its_middlewares_example :
  let req := {| Routes.method := Routes.GET;
                Routes.path := "/whatsapp/sessions/:key" |} in
  let passes := λ (_ : Routes.Middleware) (_ : Routes.Request), true in
  (Routes.dispatch Routes.literally passes Routes.routes req).1
  = [Routes.authenticateTenant; Routes.tenantStatusCheck]
  ∧ Forall (λ m, passes m req = true)
      (Routes.dispatch Routes.literally passes Routes.routes req).1.
Proof.
  apply (served_handler_ran_its_middlewares Routes.literally (λ _ _, true)
           {| Routes.method := Routes.GET;
              Routes.path := "/whatsapp/sessions/:key" |}
           Routes.WhatsAppController_show).
  reflexivity.
Defined.

Lemma session_route_is_public_example :
  Routes.dispatch Routes.literally (λ _ _, false) Routes.routes
    {| Routes.method := Routes.POST; Routes.path := "/session" |}
  = ([], Routes.Served Routes.SessionController_create).
Proof.
  apply (session_route_is_public Routes.literally (λ _ _, false)
           {| Routes.method := Routes.POST; Routes.path := "/session" |});
    reflexivity.
Defined.

Lemma unauthenticated_request_stops_at_authenticateTenant_example :
  Routes.dispatch Routes.literally (λ _ _, false) Routes.routes
    {| Routes.method := Routes.GET; Routes.path := "/nowhere" |}
  = ([Routes.authenticateTenant], Routes.Stopped Routes.authenticateTenant).
Proof.
  apply (unauthenticated_request_stops_at_authenticateTenant
           Routes.literally (λ _ _, false)
           {| Routes.method := Routes.GET; Routes.path := "/nowhere" |}).
  - reflexivity.
  - simpl. intros [Hm _]. discriminate Hm.
Defined.

Lemma unmatched_only_after_both_middlewares_example :
  let req := {| Routes.method := Routes.PUT; Routes.path := "/tenants" |} in
  let passes := λ (_ : Routes.Middleware) (_ : Routes.Request), true in
  passes Routes.authenticateTenant req = true
  ∧ passes Routes.tenantStatusCheck req = true
  ∧ (Routes.dispatch Routes.literally passes Routes.routes req).1
    = [Routes.authenticateTenant; Routes.tenantStatusCheck].
Proof.
  apply (unmatched_only_after_both_middlewares Routes.literally (λ _ _, true)
           {| Routes.method := Routes.PUT; Routes.path := "/tenants" |}).
  reflexivity.
Defined.

(** * Sessions come into being through createSocketWhatsApp only *)

Lemma untouched_ext (name : string) (st st' : State) :
  sockets st' = sockets st → wire st' = wire st → pending st' = pending st →
  untouched name st → untouched name st'.
Proof. unfold untouched, sessionOf. by intros -> -> ->. Qed.

Lemma untouched_emitUpdate
    (name m : string) (update : ConnectionState) (st : State) :
  untouched name st → untouched name (state (emitUpdate m update st)).
Proof.
  destruct (emitUpdate_frame m update st) as (Hs & _ & _ & Hw & _ & Hp).
  by apply untouched_ext.
Qed.

Lemma untouched_step (name : string) (l : Label) (st : State) :
  l ≠ CallCreate name →
  untouched name st →
  untouched name (step l st) ∧ tokens (step l st) !! name = tokens st !! name.
Proof.
  intros Hl (Hreg & Hwire & Hpend).
  destruct l as [m|i|i|h update|h c|m o|m o]; simpl.
  - split; [|done]. split; [done|]. split; [done|]. simpl.
    intros t [Ht|Ht]%elem_of_app; [by apply Hpend|].
    apply list_elem_of_singleton in Ht as ->. simpl. congruence.
  - destruct (pending st !! i) as [[m k|m auth k]|] eqn:Hi; try done.
    assert (m ≠ name) as Hm.
    { apply (Hpend (Loading m k)). by apply list_elem_of_lookup_2 in Hi. }
    unfold createSocket_load.
    destruct (useMultiFileAuthState m (tokens st)) as [[auth fs]|] eqn:Hload;
      simpl.
    + destruct (useMultiFileAuthState_spec _ _ _ _ Hload) as (_ & _ & _ & _ & Ho).
      split; [|by apply Ho]. split; [done|]. split; [done|]. simpl.
      intros t Ht. apply list_elem_of_lookup in Ht as [j Hj].
      destruct (decide (i = j)) as [<-|Hij].
      * rewrite list_lookup_insert_eq in Hj by (by apply lookup_lt_Some in Hi).
        by injection Hj as <-.
      * rewrite list_lookup_insert_ne in Hj by done.
        apply Hpend. by apply list_elem_of_lookup_2 in Hj.
    + split; [|done]. split; [done|]. split; [done|]. simpl.
      intros t Ht. apply Hpend.
      apply list_elem_of_lookup in Ht as [j Hj].
      rewrite list_lookup_delete in Hj.
      case_decide; by apply list_elem_of_lookup_2 in Hj.
  - destruct (pending st !! i) as [[m k|m auth k]|] eqn:Hi; try done.
    assert (m ≠ name) as Hm.
    { apply (Hpend (Loaded m auth k)). by apply list_elem_of_lookup_2 in Hi. }
    assert (untouched name
              (createSocket_finish m auth (set_pending (delete i) st))) as Hfin.
    { split; [|split]; simpl.
      - by rewrite lookup_insert_ne.
      - intros h. unfold sessionOf; simpl.
        destruct (decide (h < length (wire st))) as [Hlt|Hge].
        + rewrite lookup_app_l by done. apply Hwire.
        + destruct (decide (h = length (wire st))) as [->|Hne].
          * rewrite list_lookup_middle by done. simpl. congruence.
          * rewrite lookup_ge_None_2; [done|]. rewrite length_app. simpl. lia.
      - intros t Ht. apply Hpend.
        apply list_elem_of_lookup in Ht as [j Hj].
        rewrite list_lookup_delete in Hj.
        case_decide; by apply list_elem_of_lookup_2 in Hj. }
    destruct k as [|name' update]; [done|].
    destruct (emitUpdate_frame name' update
                (createSocket_finish m auth (set_pending (delete i) st)))
      as (_ & _ & -> & _).
    split; [|done]. by apply untouched_emitUpdate.
  - destruct (sessionOf st h) as [m|] eqn:Hh; [|done].
    assert (m ≠ name) as Hm.
    { intros ->. by apply (Hwire h). }
    case_decide; [done|].
    assert (untouched name (set_sockets (delete m) (markEnded h update st))) as Hdel.
    { unfold markEnded. split; [|split]; case_decide; simpl;
        rewrite ?lookup_delete_ne by done; done. }
    assert (tokens (markEnded h update st) = tokens st) as Htok.
    { unfold markEnded. by case_decide. }
    unfold handleConnectionUpdate_start.
    repeat case_decide; simpl.
    + destruct (emitUpdate_frame m update
                  (handleLoggedOut m (set_sockets (delete m) (markEnded h update st))))
        as (_ & _ & -> & _).
      split.
      * apply untouched_emitUpdate. revert Hdel. by apply untouched_ext.
      * simpl. unfold deleteFolderRecursive.
        rewrite lookup_delete_ne by done. by rewrite Htok.
    + split; [|by rewrite Htok]. destruct Hdel as (? & ? & Hp).
      split; [done|]. split; [done|]. simpl.
      intros t [Ht|Ht]%elem_of_app; [by apply Hp|].
      apply list_elem_of_singleton in Ht as ->. done.
    + destruct (emitUpdate_frame m update
                  (set_sockets (delete m) (markEnded h update st)))
        as (_ & _ & -> & _).
      split; [by apply untouched_emitUpdate|]. simpl. by rewrite Htok.
    + destruct (emitUpdate_frame m update (markEnded h update st))
        as (_ & _ & -> & _).
      split; [|by rewrite Htok]. apply untouched_emitUpdate.
      unfold markEnded. by case_decide.
  - destruct (sessionOf st h) as [m|] eqn:Hh; [|done].
    assert (m ≠ name) as Hm.
    { intros ->. by apply (Hwire h). }
    case_decide; [done|]. split; [done|]. simpl.
    unfold saveCreds. destruct (tokens st !! m); [|done].
    by rewrite lookup_insert_ne.
  - unfold getConnectionUpdateObservable.
    by destruct (JsObject.get (connectionUpdateSubjects st) m).
  - done.
Qed.

(** A session that is on disk when the manager starts is not attached by the
    manager itself.  When the name and every name that createSocketWhatsApp
    is called with are each one path component, then over every schedule in
    which createSocketWhatsApp is not called for the name,
    getSocketByName(name) finds nothing, no transport handle is made for the
    name, and its folder stays exactly as it was, so that
    getExistingSessionNames() lists it if and only if it was on disk.
    Whatever happens to the other sessions does not matter. *)
Theorem session_exists_only_after_create
    (fs : gmap string Folder) (tr : list Label) (name : string) :
  simpleName name = true →
  (∀ m, CallCreate m ∈ tr → simpleName m = true) →
  CallCreate name ∉ tr →
  getSocketByName name (run tr (initial fs)) = None
  ∧ (∀ h, ¬ liveFor (run tr (initial fs)) name h)
  ∧ tokens (run tr (initial fs)) !! name = fs !! name
  ∧ (name ∈ getExistingSessionNames (run tr (initial fs)) ↔ is_Some (fs !! name)).
Proof.
  intros _ _ Htr.
  assert (∀ st, untouched name st →
            untouched name (run tr st)
            ∧ tokens (run tr st) !! name = tokens st !! name) as Hrun.
  { revert Htr. induction tr as [|l tr IH]; intros Htr st Hst; [done|].
    change (run (l :: tr) st) with (run tr (step l st)).
    destruct (untouched_step name l st) as [Hst' Htok]; [|done|].
    { intros ->. apply Htr. by left. }
    destruct (IH (λ H, Htr (list_elem_of_further _ _ _ H)) _ Hst') as [? ->].
    done. }
  destruct (Hrun (initial fs)) as ((Hreg & Hwire & _) & Htok).
  { split; [done|]. split.
    - intros h. unfold sessionOf. simpl. by destruct h.
    - simpl. by intros t ?%elem_of_nil. }
  split; [done|]. split; [|split; [done|]].
  - intros h [Hh _]. by apply (Hwire h).
  - by rewrite elem_of_getExistingSessionNames, Htok.
Qed.

Lemma session_exists_only_after_create_example :
  let fs : gmap string Folder := {["acct1" := Some 7]} in
  let tr := [CallCreate "acct2"; IOLoad 0; Resume 0;
             Emit 0 (closedWith DisconnectReason.loggedOut)] in
  getSocketByName "acct1" (run tr (initial fs)) = None
  ∧ (∀ h, ¬ liveFor (run tr (initial fs)) "acct1" h)
  ∧ tokens (run tr (initial fs)) !! "acct1" = fs !! "acct1"
  ∧ ("acct1" ∈ getExistingSessionNames (run tr (initial fs))
     ↔ is_Some (fs !! "acct1")).
Proof.
  apply (session_exists_only_after_create {["acct1" := Some 7]}
           [CallCreate "acct2"; IOLoad 0; Resume 0;
            Emit 0 (closedWith DisconnectReason.loggedOut)] "acct1");
    [reflexivity
    |intros m Hin;
     repeat (apply elem_of_cons in Hin as [Hin|Hin]; [by simplify_eq|]);
     by apply elem_of_nil in Hin
    |].
  intros Hin. repeat (apply elem_of_cons in Hin as [Hin|Hin]; [done|]).
  by apply elem_of_nil in Hin.
Defined.

(** * Folders disappear on logout only *)

(** When the session names in play are each one path component, the only
    callback of the event loop after which a folder of the tokens directory
    is gone is the 'connection.update' listener of a live handle of that very
    session, run on a close whose status code is [loggedOut]. *)
Theorem folder_removed_only_by_logout_of_its_session
    (l : Label) (st : State) (name : string) :
  simpleName name = true →
  (∀ h m, sessionOf st h = Some m → simpleName m = true) →
  is_Some (tokens st !! name) →
  tokens (step l st) !! name = None →
  ∃ h update,
    l = Emit h update
    ∧ sessionOf st h = Some name
    ∧ (h ∉ ended st)
    ∧ connection update = Some ConnClose
    ∧ statusCodeOf update = Some DisconnectReason.loggedOut.
Proof.
  intros _ _ Hthere Hgone.
  assert (tokens (step l st) !! name = tokens st !! name → False) as Hsame.
  { intros Heq. rewrite Hgone in Heq. rewrite <- Heq in Hthere.
    by destruct Hthere. }
  destruct l as [m|i|i|h update|h c|m o|m o]; simpl in *.
  - by destruct Hsame.
  - destruct Hsame.
    destruct (pending st !! i) as [[m k|m auth k]|]; try done.
    unfold createSocket_load.
    destruct (useMultiFileAuthState m (tokens st)) as [[auth fs]|] eqn:Hload;
      [|done].
    destruct (useMultiFileAuthState_spec _ _ _ _ Hload) as (_ & _ & Hkeep & _).
    simpl. by apply Hkeep.
  - destruct Hsame.
    destruct (pending st !! i) as [[m k|m auth k]|]; try done.
    destruct k as [|name' update]; [done|].
    by destruct (emitUpdate_frame name' update
                   (createSocket_finish m auth (set_pending (delete i) st)))
      as (_ & _ & -> & _).
  - destruct (sessionOf st h) as [m|] eqn:Hh; [|by destruct Hsame].
    case_decide as Hended; [by destruct Hsame|].
    assert (tokens (markEnded h update st) = tokens st) as Htok.
    { unfold markEnded. by case_decide. }
    unfold handleConnectionUpdate_start in *.
    destruct (decide (connection update = Some ConnClose)) as [Hc|Hc];
      [destruct (decide (statusCodeOf update = Some DisconnectReason.loggedOut))
         as [H1|H1];
       [|destruct (decide (statusCodeOf update = Some DisconnectReason.restartRequired))
           as [H2|H2]]|]; simpl in *.
    + destruct (decide (m = name)) as [->|Hne]; [by exists h, update|].
      destruct Hsame.
      destruct (emitUpdate_frame m update
                  (handleLoggedOut m (set_sockets (delete m) (markEnded h update st))))
        as (_ & _ & -> & _).
      simpl. unfold deleteFolderRecursive.
      rewrite lookup_delete_ne by done. by rewrite Htok.
    + destruct Hsame. by rewrite Htok.
    + destruct Hsame.
      destruct (emitUpdate_frame m update
                  (set_sockets (delete m) (markEnded h update st)))
        as (_ & _ & -> & _).
      simpl. by rewrite Htok.
    + destruct Hsame.
      destruct (emitUpdate_frame m update (markEnded h update st))
        as (_ & _ & -> & _).
      by rewrite Htok.
  - destruct (sessionOf st h) as [m|]; [|by destruct Hsame].
    case_decide; [by destruct Hsame|]. simpl in *.
    unfold saveCreds in *.
    destruct (tokens st !! m) eqn:Hm; [|by destruct Hsame].
    destruct (decide (m = name)) as [->|Hne].
    + by rewrite lookup_insert_eq in Hgone.
    + rewrite lookup_insert_ne in Hgone by done.
      rewrite Hgone in Hthere. by destruct Hthere.
  - destruct Hsame. unfold getConnectionUpdateObservable.
    by destruct (JsObject.get (connectionUpdateSubjects st) m).
  - by destruct Hsame.
Qed.

Lemma folder_removed_only_by_logout_of_its_session_example :
  let st := state (createSocketWhatsApp "acct3" (initial {["acct3" := Some 7]})) in
  ∃ h update,
    Emit 0 (closedWith DisconnectReason.loggedOut) = Emit h update
    ∧ sessionOf st h = Some "acct3"
    ∧ (h ∉ ended st)
    ∧ connection update = Some ConnClose
    ∧ statusCodeOf update = Some DisconnectReason.loggedOut.
Proof.
  apply (folder_removed_only_by_logout_of_its_session
           (Emit 0 (closedWith DisconnectReason.loggedOut))
           (state (createSocketWhatsApp "acct3" (initial {["acct3" := Some 7]})))
           "acct3").
  - reflexivity.
  - intros [|h] m; [|by destruct h]. by intros [= <-].
  - vm_compute. eauto.
  - by vm_compute.
Defined.
